(** * Intruder Escape: the pursuit engine of [intruder_escape.py]

    A shallow embedding of the class [GridMaze]: the grid, the A* path
    finder [find_path], the per-tick robot update [update_game], the
    capture transition [game_over] with its score files, and the two
    input handlers of [run] that change the game state (the grid click
    that places the intruder and the key press that moves it).

    Python integers are [Z], a cell [(row, col)] is a pair of [Z], the
    dictionaries and the set of [find_path] are stdpp's [gmap] and [gset],
    the robot dictionary (whose iteration order matters) is an association
    list in insertion order, and the robot speed is an IEEE-754 binary64
    [float], as a Python [float] is. *)

From Stdlib Require Import ZArith Lia PrimFloat Uint63.
From stdpp Require Import gmap list sorting.

Local Open Scope Z_scope.

(** ** Exceptions and results

    A Python call either returns or raises.  [LoopBound] is not a Python
    exception: it marks a [while] loop of the model that ran out of its
    iteration bound, and is shown below never to happen. *)

Inductive exn : Type := KeyError | TypeError | LoopBound.

Inductive result (A : Type) : Type :=
| Ok (a : A)
| Raise (e : exn).

Arguments Ok {A} a.
Arguments Raise {A} e.

#[global] Instance result_bind : MBind result := fun A B k r =>
  match r with
  | Ok a => k a
  | Raise e => Raise e
  end.

(** ** The grid *)

Abbreviation cell := (Z * Z)%type.

Definition GRID_SIZE : Z := 15.

(** [0 <= cell[0] < GRID_SIZE and 0 <= cell[1] < GRID_SIZE] *)
Definition in_bounds (c : cell) : bool :=
  (0 <=? c.1) && (c.1 <? GRID_SIZE) && (0 <=? c.2) && (c.2 <? GRID_SIZE).

(** [self.grid[row][col]].  Every read in the source is guarded by
    [in_bounds]; on a [GRID_SIZE] x [GRID_SIZE] grid the default is never
    returned. *)
Definition grid_at (grid : list (list Z)) (c : cell) : Z :=
  nth (Z.to_nat c.2) (nth (Z.to_nat c.1) grid []) 0.

(** The cells [find_path] may enter: the negation of its skip test
    [not in_bounds or grid[r][c] == 1]. *)
Definition passable (grid : list (list Z)) (c : cell) : bool :=
  negb (negb (in_bounds c) || (grid_at grid c =? 1)).

(** [[[0 for _ in range(GRID_SIZE)] for _ in range(GRID_SIZE)]] *)
Definition empty_grid : list (list Z) :=
  replicate (Z.to_nat GRID_SIZE) (replicate (Z.to_nat GRID_SIZE) 0).

(** [grid[row][col] = 1] *)
Definition set_obstacle (grid : list (list Z)) (c : cell) : list (list Z) :=
  alter (fun row => <[Z.to_nat c.2 := 1]> row) (Z.to_nat c.1) grid.

(** ** find_path *)

Module PathFinder.

(** [abs(a[0] - b[0]) + abs(a[1] - b[1])] *)
Definition manhattan_distance (a b : cell) : Z :=
  Z.abs (a.1 - b.1) + Z.abs (a.2 - b.2).

(** The neighbour offsets, in the order of the source's [for] loop. *)
Definition DIRECTIONS : list (Z * Z) := [(0, 1); (1, 0); (0, -1); (-1, 0)].

Definition shift (c : cell) (d : Z * Z) : cell := (c.1 + d.1, c.2 + d.2).

(** *** The heap

    [open_set] holds tuples [(f, (row, col))].  Python compares tuples
    lexicographically, and [heapq.heappop] removes and returns the least
    entry of the heap; the layout of the heap's list is not observable
    through [heappush], [heappop] and the membership scan, so the heap is
    the list of its entries. *)

Definition entry_ltb (a b : Z * cell) : bool :=
  (a.1 <? b.1)
  || ((a.1 =? b.1)
      && ((a.2.1 <? b.2.1) || ((a.2.1 =? b.2.1) && (a.2.2 <? b.2.2)))).

Definition least (e : Z * cell) (h : list (Z * cell)) : Z * cell :=
  foldl (fun m x => if entry_ltb x m then x else m) e h.

Fixpoint remove_first (e : Z * cell) (h : list (Z * cell)) : list (Z * cell) :=
  match h with
  | [] => []
  | x :: t => if decide (x = e) then t else x :: remove_first e t
  end.

Definition heappush (h : list (Z * cell)) (e : Z * cell) : list (Z * cell) :=
  h ++ [e].

Definition heappop (h : list (Z * cell)) : option ((Z * cell) * list (Z * cell)) :=
  match h with
  | [] => None
  | x :: t => let m := least x t in Some (m, remove_first m h)
  end.

(** *** The search state: the five locals of [find_path] *)

Record search : Type := Search {
  open_set : list (Z * cell);
  closed_set : gset cell;
  g_score : gmap cell Z;
  f_score : gmap cell Z;
  came_from : gmap cell cell
}.

Definition init (start goal : cell) : search :=
  {| open_set := heappush [] (manhattan_distance start goal, start);
     closed_set := ∅;
     g_score := {[start := 0]};
     f_score := {[start := manhattan_distance start goal]};
     came_from := ∅ |}.

(** [neighbor in [item[1] for item in open_set]] *)
Definition in_open (n : cell) (h : list (Z * cell)) : bool :=
  bool_decide (n ∈ h.*2).

(** One pass of the body of [for dx, dy in ...], for the offset [d]. *)
Definition relax (grid : list (list Z)) (goal current : cell)
    (st : search) (d : Z * Z) : result search :=
  let neighbor := shift current d in
  if negb (in_bounds neighbor) || (grid_at grid neighbor =? 1) then Ok st
  else if bool_decide (neighbor ∈ closed_set st) then Ok st
  else
    match g_score st !! current with
    | None => Raise KeyError
    | Some gc =>
      let tentative_g_score := gc + 1 in
      let better :=
        match g_score st !! neighbor with
        | None => true
        | Some gn => tentative_g_score <? gn
        end in
      if better then
        let f := tentative_g_score + manhattan_distance neighbor goal in
        Ok {| open_set :=
                if in_open neighbor (open_set st) then open_set st
                else heappush (open_set st) (f, neighbor);
              closed_set := closed_set st;
              g_score := <[neighbor := tentative_g_score]> (g_score st);
              f_score := <[neighbor := f]> (f_score st);
              came_from := <[neighbor := current]> (came_from st) |}
      else Ok st
    end.

(** The whole [for] loop over the four offsets. *)
Fixpoint relax_all (grid : list (list Z)) (goal current : cell)
    (st : search) (ds : list (Z * Z)) : result search :=
  match ds with
  | [] => Ok st
  | d :: ds' =>
    st' ← relax grid goal current st d;
    relax_all grid goal current st' ds'
  end.

(** The bound on the passes of the two [while] loops.  Every pass of the
    outer loop closes a cell that was not closed before, and a closed cell
    is [start] or one of the [GRID_SIZE * GRID_SIZE] cells of the board;
    the walk back along [came_from] strictly lowers the [g_score], which
    never exceeds the number of closed cells. *)
Definition LOOP_BOUND : nat := Z.to_nat (GRID_SIZE * GRID_SIZE + 2).

(** [while current in came_from: path.append(current);
    current = came_from[current]] *)
Fixpoint walk_back (fuel : nat) (cf : gmap cell cell) (current : cell)
    (path : list cell) : result (list cell) :=
  match cf !! current with
  | None => Ok path
  | Some prev =>
    match fuel with
    | O => Raise LoopBound
    | S fuel' => walk_back fuel' cf prev (path ++ [current])
    end
  end.

(** The [if current == goal] block: walk back, append [start], reverse. *)
Definition reconstruct (cf : gmap cell cell) (start current : cell)
    : result (list cell) :=
  path ← walk_back LOOP_BOUND cf current [];
  Ok (reverse (path ++ [start])).

(** [while open_set: ...] *)
Fixpoint search_loop (fuel : nat) (grid : list (list Z)) (start goal : cell)
    (st : search) : result (option (list cell)) :=
  match fuel with
  | O => Raise LoopBound
  | S fuel' =>
    match heappop (open_set st) with
    | None => Ok None
    | Some (e, rest) =>
      let current := e.2 in
      if bool_decide (current = goal) then
        path ← reconstruct (came_from st) start current;
        Ok (Some path)
      else
        let st1 := {| open_set := rest;
                      closed_set := {[current]} ∪ closed_set st;
                      g_score := g_score st;
                      f_score := f_score st;
                      came_from := came_from st |} in
        st2 ← relax_all grid goal current st1 DIRECTIONS;
        search_loop fuel' grid start goal st2
    end
  end.

Definition find_path_run (grid : list (list Z)) (start goal : cell)
    : result (option (list cell)) :=
  search_loop LOOP_BOUND grid start goal (init start goal).

(** [find_path] as its callers see it: a path or [None].  The run always
    returns (lemma [find_path_run_returns] below), so no case is lost. *)
Definition find_path (grid : list (list Z)) (start goal : cell)
    : option (list cell) :=
  match find_path_run grid start goal with
  | Ok r => r
  | Raise _ => None
  end.

(** *** What a path is

    [walk grid start c p]: the list [p] leads from [start] to [c], each
    move goes to one of the four neighbours, and every cell entered is in
    bounds and not an obstacle.  The first cell is not constrained. *)
Inductive walk (grid : list (list Z)) (start : cell) : cell -> list cell -> Prop :=
| walk_here : walk grid start start [start]
| walk_move (b c : cell) (p : list cell) (d : Z * Z) :
    walk grid start b p ->
    d ∈ DIRECTIONS ->
    c = shift b d ->
    passable grid c = true ->
    walk grid start c (p ++ [c]).

(** A checker for paths: every cell of [rest] is a neighbour of the cell
    before it (the first of [a]) and may be entered. *)
Fixpoint steps_ok (grid : list (list Z)) (a : cell) (rest : list cell) : bool :=
  match rest with
  | [] => true
  | b :: rest' =>
    existsb (fun d => bool_decide (b = shift a d)) DIRECTIONS
    && passable grid b && steps_ok grid b rest'
  end.

(** *** The invariant of the [while] loop *)

(** The cells of the board, row by row. *)
Definition board_cells : list cell :=
  r ← seqZ 0 GRID_SIZE; c ← seqZ 0 GRID_SIZE; [(r, c)].

Record inv (grid : list (list Z)) (start : cell) (st : search) : Prop := Inv {
  (* a cell is queued at most once *)
  inv_open_nodup : NoDup (open_set st).*2;
  (* queued cells are not closed, have a score, and may be entered *)
  inv_open_fresh : ∀ c, c ∈ (open_set st).*2 → c ∉ closed_set st;
  inv_open_scored : ∀ c, c ∈ (open_set st).*2 → is_Some (g_score st !! c);
  inv_open_board : ∀ c, c ∈ (open_set st).*2 → c = start ∨ passable grid c = true;
  inv_closed_board : ∀ c, c ∈ closed_set st → c = start ∨ passable grid c = true;
  (* a predecessor is closed, one move away and one step cheaper *)
  inv_came_from : ∀ n m, came_from st !! n = Some m →
    m ∈ closed_set st ∧ (∃ d, d ∈ DIRECTIONS ∧ n = shift m d)
    ∧ passable grid n = true
    ∧ ∃ gm, g_score st !! m = Some gm ∧ g_score st !! n = Some (gm + 1);
  inv_g_range : ∀ n k, g_score st !! n = Some k →
    0 ≤ k ≤ Z.of_nat (size (closed_set st));
  (* only [start] has a score without a predecessor *)
  inv_g_origin : ∀ n k, g_score st !! n = Some k →
    n = start ∨ is_Some (came_from st !! n);
  inv_start_root : came_from st !! start = None;
  inv_start_first : start ∈ closed_set st ∨ ∀ c, c ∈ (open_set st).*2 → c = start;
  (* a cell with a score is queued or closed, and [start] has one *)
  inv_tracked : ∀ n, is_Some (g_score st !! n) →
    n ∈ closed_set st ∨ n ∈ (open_set st).*2;
  inv_start_scored : is_Some (g_score st !! start)
}.

Arguments inv_open_nodup {grid start} st _.
Arguments inv_open_fresh {grid start} st _.
Arguments inv_open_scored {grid start} st _.
Arguments inv_open_board {grid start} st _.
Arguments inv_closed_board {grid start} st _.
Arguments inv_came_from {grid start} st _.
Arguments inv_g_range {grid start} st _.
Arguments inv_g_origin {grid start} st _.
Arguments inv_start_root {grid start} st _.
Arguments inv_start_first {grid start} st _.
Arguments inv_tracked {grid start} st _.
Arguments inv_start_scored {grid start} st _.

(** The neighbours of [c] that may be entered have been seen: each is
    closed or queued. *)
Definition covered (grid : list (list Z)) (st : search) (c : cell)
    (ds : list (Z * Z)) : Prop :=
  ∀ d, d ∈ ds → passable grid (shift c d) = true →
    shift c d ∈ closed_set st ∨ shift c d ∈ (open_set st).*2.

(** Every closed cell has been expanded. *)
Definition frontier (grid : list (list Z)) (st : search) : Prop :=
  ∀ c, c ∈ closed_set st → covered grid st c DIRECTIONS.

(** The state after [heappop] and [closed_set.add(current)]. *)
Definition close (st : search) (current : cell) (rest : list (Z * cell)) : search :=
  {| open_set := rest;
     closed_set := {[current]} ∪ closed_set st;
     g_score := g_score st;
     f_score := f_score st;
     came_from := came_from st |}.

End PathFinder.

(** ** The game *)

Module Game.

Import PathFinder.

(** [game_status]: the strings ["setup"], ["running"] and ["gameover"]. *)
Inductive status : Type := Setup | Running | GameOver.

#[global] Instance status_eq_dec : EqDecision status.
Proof. solve_decision. Defined.

(** The attributes of [GridMaze] that the engine reads or writes, and the
    contents of the two score files ([None]: the file is missing or
    unreadable, so the loader falls back to its default).  A write is
    taken to succeed. *)
Record game : Type := Game {
  game_status : status;
  game_running : bool;
  steps : Z;
  high_score : Z;
  robot_speed : float;
  robot_counter : Z;
  last_update : Z;
  grid : list (list Z);
  robots : list (cell * Z);
  intruder_pos : option cell;
  leaderboard : list Z;
  high_score_json : option Z;
  leaderboard_json : option (list Z)
}.

Definition CELL_SIZE : Z := 40.
Definition PADDING : Z := 20.
Definition BUTTON_HEIGHT : Z := 40.
Definition ROBOT_SPEED_INITIAL : float := 1.0%float.
(** The binary64 nearest to 0.1, which is what Python's literal [0.1] is. *)
Definition ROBOT_SPEED_INCREASE : float := 0x1.999999999999ap-4%float.
Definition ROBOT_SPEED_INCREASE_STEPS : Z := 100.

(** *** Attribute assignments *)

Definition set_status (st : game) (s : status) (r : bool) : game :=
  {| game_status := s; game_running := r; steps := steps st;
     high_score := high_score st; robot_speed := robot_speed st;
     robot_counter := robot_counter st; last_update := last_update st;
     grid := grid st; robots := robots st; intruder_pos := intruder_pos st;
     leaderboard := leaderboard st; high_score_json := high_score_json st;
     leaderboard_json := leaderboard_json st |}.

Definition set_progress (st : game) (n : Z) (v : float) : game :=
  {| game_status := game_status st; game_running := game_running st;
     steps := n; high_score := high_score st; robot_speed := v;
     robot_counter := robot_counter st; last_update := last_update st;
     grid := grid st; robots := robots st; intruder_pos := intruder_pos st;
     leaderboard := leaderboard st; high_score_json := high_score_json st;
     leaderboard_json := leaderboard_json st |}.

Definition set_high_score (st : game) (h : Z) : game :=
  {| game_status := game_status st; game_running := game_running st;
     steps := steps st; high_score := h; robot_speed := robot_speed st;
     robot_counter := robot_counter st; last_update := last_update st;
     grid := grid st; robots := robots st; intruder_pos := intruder_pos st;
     leaderboard := leaderboard st; high_score_json := high_score_json st;
     leaderboard_json := leaderboard_json st |}.

Definition set_robots (st : game) (rs : list (cell * Z)) (t : Z) : game :=
  {| game_status := game_status st; game_running := game_running st;
     steps := steps st; high_score := high_score st;
     robot_speed := robot_speed st; robot_counter := robot_counter st;
     last_update := t; grid := grid st; robots := rs;
     intruder_pos := intruder_pos st; leaderboard := leaderboard st;
     high_score_json := high_score_json st;
     leaderboard_json := leaderboard_json st |}.

Definition set_intruder_pos (st : game) (p : option cell) : game :=
  {| game_status := game_status st; game_running := game_running st;
     steps := steps st; high_score := high_score st;
     robot_speed := robot_speed st; robot_counter := robot_counter st;
     last_update := last_update st; grid := grid st; robots := robots st;
     intruder_pos := p; leaderboard := leaderboard st;
     high_score_json := high_score_json st;
     leaderboard_json := leaderboard_json st |}.

Definition set_leaderboard (st : game) (l : list Z) : game :=
  {| game_status := game_status st; game_running := game_running st;
     steps := steps st; high_score := high_score st;
     robot_speed := robot_speed st; robot_counter := robot_counter st;
     last_update := last_update st; grid := grid st; robots := robots st;
     intruder_pos := intruder_pos st; leaderboard := l;
     high_score_json := high_score_json st;
     leaderboard_json := leaderboard_json st |}.

(** *** The score files *)

(** [json.dump({'high_score': self.high_score}, f)] *)
Definition save_high_score (st : game) : game :=
  {| game_status := game_status st; game_running := game_running st;
     steps := steps st; high_score := high_score st;
     robot_speed := robot_speed st; robot_counter := robot_counter st;
     last_update := last_update st; grid := grid st; robots := robots st;
     intruder_pos := intruder_pos st; leaderboard := leaderboard st;
     high_score_json := Some (high_score st);
     leaderboard_json := leaderboard_json st |}.

Definition update_high_score (st : game) : game :=
  if high_score st <? steps st
  then save_high_score (set_high_score st (steps st))
  else st.

(** [json.load(f)['scores']], or [[]] *)
Definition load_leaderboard (st : game) : list Z :=
  default [] (leaderboard_json st).

(** [json.dump({'scores': scores}, f)] *)
Definition save_leaderboard (st : game) (scores : list Z) : game :=
  {| game_status := game_status st; game_running := game_running st;
     steps := steps st; high_score := high_score st;
     robot_speed := robot_speed st; robot_counter := robot_counter st;
     last_update := last_update st; grid := grid st; robots := robots st;
     intruder_pos := intruder_pos st; leaderboard := leaderboard st;
     high_score_json := high_score_json st;
     leaderboard_json := Some scores |}.

(** The order of [scores.sort(reverse=True)]: larger scores first. *)
Definition before (a b : Z) : Prop := b <= a.

#[global] Instance before_dec : RelDecision before := fun a b => decide (b <= a).

(** [scores.sort(reverse=True)]: a stable sort into descending order. *)
Definition sort_reverse (scores : list Z) : list Z :=
  merge_sort before scores.

(** Returns the new state (the file rewritten) and the list it returns. *)
Definition update_leaderboard (st : game) : game * list Z :=
  let scores := load_leaderboard st in
  let scores := scores ++ [steps st] in
  let scores := sort_reverse scores in
  let scores := take 5 scores in
  (save_leaderboard st scores, scores).

Definition game_over (st : game) : game :=
  let st := set_status st GameOver false in
  let st := update_high_score st in
  let '(st, scores) := update_leaderboard st in
  set_leaderboard st scores.

(** *** Buttons *)

Definition clear_grid (st : game) : game :=
  {| game_status := Setup; game_running := false; steps := 0;
     high_score := high_score st; robot_speed := ROBOT_SPEED_INITIAL;
     robot_counter := 1; last_update := last_update st;
     grid := empty_grid; robots := []; intruder_pos := None;
     leaderboard := leaderboard st; high_score_json := high_score_json st;
     leaderboard_json := leaderboard_json st |}.

Definition add_intruder_mode (st : game) : game :=
  if negb (game_running st) then set_status st Setup (game_running st) else st.

Definition start_game (st : game) : game :=
  match intruder_pos st with
  | None => st
  | Some _ => set_progress (set_status st Running true) 0 ROBOT_SPEED_INITIAL
  end.

(** *** update_game *)

(** A Python [int] as a [float].  Exact below 2^53; the tick counter of
    pygame is a 32-bit number of milliseconds. *)
Definition float_of_int (z : Z) : float :=
  if z <? 0 then (- of_uint63 (of_Z (- z)))%float else of_uint63 (of_Z z).

(** [current_time - self.last_update >= 1000 / self.robot_speed] *)
Definition tick_due (st : game) (current_time : Z) : bool :=
  (1000 / robot_speed st <=? float_of_int (current_time - last_update st))%float.

(** [d[k] = v] on a dictionary kept in insertion order: an existing key
    keeps its place and takes the new value, a new key goes last. *)
Definition dict_set (d : list (cell * Z)) (k : cell) (v : Z) : list (cell * Z) :=
  if bool_decide (k ∈ d.*1)
  then (fun kv : cell * Z => if bool_decide (kv.1 = k) then (k, v) else kv) <$> d
  else d ++ [(k, v)].

(** How the [for] loop over the robots ends: by [game_over(); return], or
    by running through with the finished [new_robots]. *)
Inductive tick : Type :=
| Captured
| Moved (new_robots : list (cell * Z)).

(** The [for] loop of [update_game] over [self.robots.items()], from the
    robots [rs] still to visit and the [new_robots] built so far.  With no
    intruder placed, [find_path] raises [TypeError] on its first line. *)
Fixpoint move_robots (grid : list (list Z)) (intruder : option cell)
    (rs : list (cell * Z)) (new_robots : list (cell * Z)) : result tick :=
  match rs with
  | [] => Ok (Moved new_robots)
  | (pos, number) :: rs' =>
    match intruder with
    | None => Raise TypeError
    | Some goal =>
      path ← find_path_run grid pos goal;
      match path with
      | Some (_ :: next_pos :: _) =>
        let new_robots := dict_set new_robots next_pos number in
        if bool_decide (next_pos = goal) then Ok Captured
        else move_robots grid intruder rs' new_robots
      | _ => move_robots grid intruder rs' (dict_set new_robots pos number)
      end
    end
  end.

Definition update_game (st : game) (current_time : Z) : result game :=
  if negb (game_running st) then Ok st
  else if tick_due st current_time then
    t ← move_robots (grid st) (intruder_pos st) (robots st) [];
    match t with
    | Captured => Ok (game_over st)
    | Moved new_robots => Ok (set_robots st new_robots current_time)
    end
  else Ok st.

(** *** The input handlers of [run] *)

(** The cell under a mouse position, when it is within the grid area. *)
Definition clicked_cell (x y : Z) : option cell :=
  let grid_x := x - PADDING in
  let grid_y := y - (2 * PADDING + BUTTON_HEIGHT) in
  if (0 <=? grid_x) && (grid_x <=? GRID_SIZE * CELL_SIZE)
     && (0 <=? grid_y) && (grid_y <=? GRID_SIZE * CELL_SIZE)
  then
    let col := grid_x `div` CELL_SIZE in
    let row := grid_y `div` CELL_SIZE in
    Some (row, col)
  else None.

(** The test guarding [self.intruder_pos = (row, col)]. *)
Definition placeable (st : game) (c : cell) : bool :=
  in_bounds c && (grid_at (grid st) c =? 0) && negb (bool_decide (c ∈ (robots st).*1)).

(** The part of the [MOUSEBUTTONDOWN] branch after the buttons: "Handle
    grid clicks for intruder placement". *)
Definition grid_click (st : game) (x y : Z) : game :=
  if negb (game_running st) then
    match clicked_cell x y with
    | Some c => if placeable st c then set_intruder_pos st (Some c) else st
    | None => st
    end
  else st.

Inductive key : Type := K_UP | K_DOWN | K_LEFT | K_RIGHT | K_SPACE | K_OTHER.

#[global] Instance key_eq_dec : EqDecision key.
Proof. solve_decision. Defined.

(** The cell a key asks to move to, and whether it is a move at all
    ([moved]). *)
Definition target (p : cell) (k : key) : cell * bool :=
  match k with
  | K_UP => ((p.1 - 1, p.2), true)
  | K_DOWN => ((p.1 + 1, p.2), true)
  | K_LEFT => ((p.1, p.2 - 1), true)
  | K_RIGHT => ((p.1, p.2 + 1), true)
  | _ => (p, false)
  end.

(** [self.steps += 1] and the speed ramp below it. *)
Definition count_step (st : game) : game :=
  let n := steps st + 1 in
  if (0 <? n) && (n `mod` ROBOT_SPEED_INCREASE_STEPS =? 0)
  then set_progress st n (robot_speed st + ROBOT_SPEED_INCREASE)%float
  else set_progress st n (robot_speed st).

(** The [KEYDOWN] branch.  Unpacking [self.intruder_pos] raises
    [TypeError] when no intruder is placed. *)
Definition keydown (st : game) (k : key) : result game :=
  if bool_decide (game_status st = GameOver) && negb (game_running st)
  then Ok (clear_grid st)
  else
    let st :=
      if bool_decide (k = K_SPACE) && bool_decide (is_Some (intruder_pos st))
         && negb (game_running st)
      then set_status st Running true else st in
    if game_running st then
      match intruder_pos st with
      | None => Raise TypeError
      | Some p =>
        let '(new_pos, moved) := target p k in
        if in_bounds new_pos && (grid_at (grid st) new_pos =? 0) then
          let st := set_intruder_pos st (Some new_pos) in
          Ok (if moved then count_step st else st)
        else Ok st
      end
    else Ok st.

(** *** Vocabulary of the properties *)

(** Where the loop of [update_game] puts a robot standing at [pos]: on
    the second cell of its path, or where it is.  It reads the grid, the
    intruder's cell and the robot's own cell, nothing else. *)
Definition next_position (grid : list (list Z)) (goal pos : cell) : cell :=
  match find_path grid pos goal with
  | Some (_ :: next_pos :: _) => next_pos
  | _ => pos
  end.

(** The robot at [pos] takes a step, and the step ends on the intruder. *)
Definition steps_onto (grid : list (list Z)) (goal pos : cell) : bool :=
  match find_path grid pos goal with
  | Some (_ :: next_pos :: _) => bool_decide (next_pos = goal)
  | _ => false
  end.

(** Some robot steps onto the intruder in this tick. *)
Definition captures (st : game) (goal : cell) : bool :=
  existsb (fun r : cell * Z => steps_onto (grid st) goal r.1) (robots st).

(** The robots after a tick in which each went to its next position. *)
Definition moved_robots (st : game) (goal : cell) : list (cell * Z) :=
  (fun r : cell * Z => (next_position (grid st) goal r.1, r.2)) <$> robots st.

(** The reading of "every robot moves to its next position" that holds
    of every tick, capture or not. *)
Definition moves_every_robot (st : game) (current_time : Z) : Prop :=
  ∀ goal st', intruder_pos st = Some goal →
    update_game st current_time = Ok st' →
    ∀ r, r ∈ robots st → (next_position (grid st) goal r.1, r.2) ∈ robots st'.

(** A key press that asks for a move which the [KEYDOWN] branch accepts. *)
Definition accepted (st : game) (k : key) : bool :=
  game_running st
  && match intruder_pos st with
     | Some p =>
       let '(new_pos, moved) := target p k in
       moved && in_bounds new_pos && (grid_at (grid st) new_pos =? 0)
     | None => false
     end.

(** A sequence of key presses, handled in order. *)
Fixpoint play (st : game) (ks : list key) : result game :=
  match ks with
  | [] => Ok st
  | k :: ks' => st' ← keydown st k; play st' ks'
  end.

(** Every key press of the sequence is an accepted move. *)
Fixpoint all_accepted (st : game) (ks : list key) : bool :=
  match ks with
  | [] => true
  | k :: ks' =>
    accepted st k
    && match keydown st k with
       | Ok st' => all_accepted st' ks'
       | Raise _ => false
       end
  end.

(** [ROBOT_SPEED_INITIAL] after [n] increments, each a binary64 addition. *)
Definition ramp (n : nat) : float :=
  Nat.iter n (fun v => (v + ROBOT_SPEED_INCREASE)%float) ROBOT_SPEED_INITIAL.

(** A game ends with [score] steps: what [game_over] does to the
    leaderboard file. *)
Definition record_score (st : game) (score : Z) : game :=
  (update_leaderboard (set_progress st score (robot_speed st))).1.

(** The state [__init__] leaves, for a given layout and intruder, with
    no score file on disk. *)
Definition new_game (g : list (list Z)) (rs : list (cell * Z))
    (p : option cell) : game :=
  {| game_status := Setup; game_running := false; steps := 0;
     high_score := 0; robot_speed := ROBOT_SPEED_INITIAL;
     robot_counter := 1 + Z.of_nat (length rs); last_update := 0;
     grid := g; robots := rs; intruder_pos := p; leaderboard := [];
     high_score_json := None; leaderboard_json := None |}.

End Game.

(** ** Scenarios *)

Module Scenario.

Import PathFinder Game.

(** One obstacle at (1, 1); a robot at (2, 4) chases an intruder at
    (1, 0). *)
Definition detour_grid : list (list Z) := set_obstacle empty_grid (1, 1).

Definition detour_path : list cell :=
  [(2, 4); (1, 4); (1, 3); (1, 2); (0, 2); (0, 1); (0, 0); (1, 0)].

Definition direct_path : list cell :=
  [(2, 4); (2, 3); (2, 2); (2, 1); (2, 0); (1, 0)].

(** A robot next to the intruder, about to capture it. *)
Definition capture_game : game :=
  start_game (new_game empty_grid [((0, 0), 1)] (Some (0, 1))).

(** Two robots whose next cell is the same: the obstacle at (1, 2) leaves
    robot 2 only the way through (0, 1), where robot 1 goes as well. *)
Definition merge_game : game :=
  start_game (new_game (set_obstacle empty_grid (1, 2))
                       [((0, 0), 1); ((1, 1), 2)] (Some (0, 3))).

(** The intruder has walked onto the cell of a robot. *)
Definition overlap_game : game :=
  start_game (new_game empty_grid [((0, 1), 1)] (Some (0, 1))).

(** Two robots on their way, far from the intruder. *)
Definition chase_game : game :=
  start_game (new_game empty_grid [((0, 0), 1); ((3, 3), 2)] (Some (7, 7))).

(** A game that has just ended. *)
Definition finished_game : game :=
  game_over (start_game (new_game empty_grid [((0, 0), 1)] (Some (0, 1)))).

(** A running game with the intruder in the corner and an obstacle below. *)
Definition corner_game : game :=
  start_game (new_game (set_obstacle empty_grid (1, 0)) [((9, 9), 1)] (Some (0, 0))).

(** A freshly started game on an empty board. *)
Definition open_game : game :=
  start_game (new_game empty_grid [((9, 9), 1)] (Some (0, 0))).

(** The intruder paces between (0, 0) and (0, 1). *)
Definition pacing (n : nat) : list key :=
  mjoin (replicate n [K_RIGHT; K_LEFT]).

End Scenario.

(** ** Layouts, the remaining handlers and the loop of [run] *)

Module Session.

Import PathFinder Game.

Definition NUM_ROBOTS : Z := 4.
Definition NUM_OBSTACLES : Z := 30.
Definition BUTTON_WIDTH : Z := 120.
Definition BUTTON_SPACING : Z := 10.
Definition WINDOW_WIDTH : Z := GRID_SIZE * CELL_SIZE + 2 * PADDING + 160.

(** *** Random layouts

    The results of the successive calls [random.randint(0, GRID_SIZE - 1)]
    are an input: a list of integers, each call taking the next one.  The
    loops [while True] draw until a cell fits; when the list is used up
    before that, the run is cut off with [LoopBound]. *)

(** What [randint(0, GRID_SIZE - 1)] can return. *)
Definition drawn (z : Z) : Prop := 0 ≤ z < GRID_SIZE.

#[global] Instance drawn_dec (z : Z) : Decision (drawn z).
Proof. unfold drawn. apply _. Defined.

Definition set_grid (st : game) (g : list (list Z)) : game :=
  {| game_status := game_status st; game_running := game_running st;
     steps := steps st; high_score := high_score st;
     robot_speed := robot_speed st; robot_counter := robot_counter st;
     last_update := last_update st; grid := g; robots := robots st;
     intruder_pos := intruder_pos st; leaderboard := leaderboard st;
     high_score_json := high_score_json st;
     leaderboard_json := leaderboard_json st |}.

Definition set_robot_dict (st : game) (rs : list (cell * Z)) (counter : Z) : game :=
  {| game_status := game_status st; game_running := game_running st;
     steps := steps st; high_score := high_score st;
     robot_speed := robot_speed st; robot_counter := counter;
     last_update := last_update st; grid := grid st; robots := rs;
     intruder_pos := intruder_pos st; leaderboard := leaderboard st;
     high_score_json := high_score_json st;
     leaderboard_json := leaderboard_json st |}.

(** The [while True] loop of [add_random_obstacles]: draw a row and a
    column until the cell is free, then block it. *)
Fixpoint place_obstacle (g : list (list Z)) (draws : list Z)
    : result (list (list Z) * list Z) :=
  match draws with
  | row :: col :: draws' =>
    if grid_at g (row, col) =? 0 then Ok (set_obstacle g (row, col), draws')
    else place_obstacle g draws'
  | _ => Raise LoopBound
  end.

(** [for _ in range(n)] around it. *)
Fixpoint place_obstacles (n : nat) (g : list (list Z)) (draws : list Z)
    : result (list (list Z) * list Z) :=
  match n with
  | O => Ok (g, draws)
  | S n' => '(g', draws') ← place_obstacle g draws; place_obstacles n' g' draws'
  end.

Definition add_random_obstacles (st : game) (draws : list Z)
    : result (game * list Z) :=
  '(g, draws') ← place_obstacles (Z.to_nat NUM_OBSTACLES) empty_grid draws;
  Ok (set_grid st g, draws').

(** The [while True] loop of [add_random_robots]: draw until the cell is
    free and holds no robot, then put robot [counter] there. *)
Fixpoint place_robot (g : list (list Z)) (rs : list (cell * Z)) (counter : Z)
    (draws : list Z) : result (list (cell * Z) * list Z) :=
  match draws with
  | row :: col :: draws' =>
    if (grid_at g (row, col) =? 0) && negb (bool_decide ((row, col) ∈ rs.*1))
    then Ok (dict_set rs (row, col) counter, draws')
    else place_robot g rs counter draws'
  | _ => Raise LoopBound
  end.

Fixpoint place_robots (n : nat) (g : list (list Z)) (rs : list (cell * Z))
    (counter : Z) (draws : list Z) : result ((list (cell * Z) * Z) * list Z) :=
  match n with
  | O => Ok ((rs, counter), draws)
  | S n' =>
    '(rs', draws') ← place_robot g rs counter draws;
    place_robots n' g rs' (counter + 1) draws'
  end.

Definition add_random_robots (st : game) (draws : list Z)
    : result (game * list Z) :=
  '((rs, counter), draws') ←
    place_robots (Z.to_nat NUM_ROBOTS) (grid st) [] 1 draws;
  Ok (set_robot_dict st rs counter, draws').

Definition new_random_layout (st : game) (draws : list Z)
    : result (game * list Z) :=
  '(st, draws) ← add_random_obstacles (clear_grid st) draws;
  add_random_robots st draws.

(** [load_high_score]: the stored number, or 0. *)
Definition load_high_score (high_score_file : option Z) : Z :=
  default 0 high_score_file.

(** [__init__], from the contents of the two score files and the tick
    count at start. *)
Definition init_game (high_score_file : option Z)
    (leaderboard_file : option (list Z)) (ticks : Z) (draws : list Z)
    : result (game * list Z) :=
  let st :=
    {| game_status := Setup; game_running := false; steps := 0;
       high_score := load_high_score high_score_file;
       robot_speed := ROBOT_SPEED_INITIAL; robot_counter := 1;
       last_update := ticks; grid := empty_grid; robots := [];
       intruder_pos := None; leaderboard := [];
       high_score_json := high_score_file;
       leaderboard_json := leaderboard_file |} in
  '(st, draws) ← new_random_layout st draws;
  Ok (set_leaderboard st (load_leaderboard st), draws).

(** *** The buttons *)

Inductive button : Type := ClearGrid | PlaceIntruder | StartGame | NewLayout.

(** [self.buttons], in order. *)
Definition buttons : list button := [ClearGrid; PlaceIntruder; StartGame; NewLayout].

(** [pygame.Rect(left, top, width, height).collidepoint((x, y))]: the
    right and the bottom edge are outside. *)
Definition collidepoint (left top width height x y : Z) : bool :=
  (left <=? x) && (x <? left + width) && (top <=? y) && (y <? top + height).

(** The first button, in the order of [self.buttons], whose rectangle
    holds the position: the [for ... break] scan of the handler. *)
Fixpoint scan_buttons (bs : list button) (i : Z) (x y : Z) : option button :=
  match bs with
  | [] => None
  | b :: bs' =>
    let button_y := PADDING in
    let total_button_width :=
      Z.of_nat (length buttons) * (BUTTON_WIDTH + BUTTON_SPACING) - BUTTON_SPACING in
    let start_x := (WINDOW_WIDTH - total_button_width) `div` 2 in
    let button_x := start_x + i * (BUTTON_WIDTH + BUTTON_SPACING) in
    if collidepoint button_x button_y BUTTON_WIDTH BUTTON_HEIGHT x y
    then Some b
    else scan_buttons bs' (i + 1) x y
  end.

(** [button["action"]()] *)
Definition press (st : game) (b : button) (draws : list Z)
    : result (game * list Z) :=
  match b with
  | ClearGrid => Ok (clear_grid st, draws)
  | PlaceIntruder => Ok (add_intruder_mode st, draws)
  | StartGame => Ok (start_game st, draws)
  | NewLayout => new_random_layout st draws
  end.

(** The whole [MOUSEBUTTONDOWN] branch: the buttons, then the grid. *)
Definition mousebuttondown (st : game) (x y : Z) (draws : list Z)
    : result (game * list Z) :=
  '(st, draws) ←
    match scan_buttons buttons 0 x y with
    | Some b => press st b draws
    | None => Ok (st, draws)
    end;
  Ok (grid_click st x y, draws).

(** *** The loop of [run] *)

Inductive event : Type :=
| MouseButtonDown (x y : Z)
| KeyDown (k : key).

(** One pass of [for event in pygame.event.get()]. *)
Definition handle (w : game * list Z) (ev : event) : result (game * list Z) :=
  match ev with
  | MouseButtonDown x y => mousebuttondown w.1 x y w.2
  | KeyDown k => st ← keydown w.1 k; Ok (st, w.2)
  end.

Fixpoint handle_all (w : game * list Z) (evs : list event)
    : result (game * list Z) :=
  match evs with
  | [] => Ok w
  | ev :: evs' => w' ← handle w ev; handle_all w' evs'
  end.

(** One pass of [while running]: the events of the frame, then
    [update_game] at the tick count [ticks] ([draw] changes nothing). *)
Definition frame (w : game * list Z) (f : list event * Z)
    : result (game * list Z) :=
  w' ← handle_all w f.1;
  st ← update_game w'.1 f.2;
  Ok (st, w'.2).

Fixpoint run (w : game * list Z) (fs : list (list event * Z))
    : result (game * list Z) :=
  match fs with
  | [] => Ok w
  | f :: fs' => w' ← frame w f; run w' fs'
  end.

(** *** What [draw] shows *)


(** [ROBOT_SPEED_INCREASE_STEPS - (steps % ROBOT_SPEED_INCREASE_STEPS)],
    shown as "Speed increase in" while running with [steps > 0]. *)
Definition steps_until_speed (st : game) : Z :=
  ROBOT_SPEED_INCREASE_STEPS - steps st `mod` ROBOT_SPEED_INCREASE_STEPS.

(** [count_step], [n] times. *)
Definition count_steps (n : nat) (st : game) : game := Nat.iter n count_step st.

(** The robot dictionary that the loop of [update_game] builds from the
    robots [rs], starting from [acc], when no robot captures. *)
Definition robots_after (g : list (list Z)) (goal : cell)
    (rs acc : list (cell * Z)) : list (cell * Z) :=
  foldl (fun a r => dict_set a (next_position g goal r.1) r.2) acc rs.

(** *** Well-formed states *)

(** A [GRID_SIZE] x [GRID_SIZE] grid of 0s and 1s. *)
Definition grid_ok (g : list (list Z)) : Prop :=
  length g = Z.to_nat GRID_SIZE
  ∧ Forall (fun row => length row = Z.to_nat GRID_SIZE
                       ∧ Forall (fun v => v = 0 ∨ v = 1) row) g.

(** The obstacle cells of a grid. *)
Definition obstacles (g : list (list Z)) : list cell :=
  filter (fun c => grid_at g c = 1) board_cells.


End Session.

(** ** Sample sessions *)

Module Sample.

Import PathFinder Game Scenario Session.

(** Draws that name the cells of the board row by row. *)
Definition row_major_draws : list Z :=
  c ← take 40 board_cells; [c.1; c.2].

(** A session that starts from no score files. *)
Definition fresh_session : result (game * list Z) :=
  init_game None None 0 row_major_draws.

(** Place the intruder on (10, 0), start with SPACE, move right twice,
    over three frames. *)
Definition short_play : list (list event * Z) :=
  [([MouseButtonDown 25 485], 16); ([KeyDown K_SPACE; KeyDown K_RIGHT], 33);
   ([KeyDown K_RIGHT], 1050)].

(** A game back in setup with the progress of the game before: 150 steps
    at the speed after one increment. *)
Definition stale_setup : game :=
  set_progress (new_game empty_grid [((9, 9), 1)] (Some (0, 0))) 150 (ramp 1).

End Sample.

(** * Properties of the path finder *)

Module PathFinderFacts.

Import PathFinder.

(** ** The heap *)

Lemma least_elem (e : Z * cell) (h : list (Z * cell)) : least e h ∈ e :: h.
Proof.
  unfold least. revert e. induction h as [|x h IH]; intros e; simpl.
  - apply list_elem_of_here.
  - destruct (entry_ltb x e).
    + apply list_elem_of_further, IH.
    + specialize (IH e). apply elem_of_cons in IH as [->|IH].
      * apply list_elem_of_here.
      * by do 2 apply list_elem_of_further.
Qed.

Lemma remove_first_perm (e : Z * cell) (h : list (Z * cell)) :
  e ∈ h → h ≡ₚ e :: remove_first e h.
Proof.
  induction h as [|x h IH]; intros He.
  - by apply elem_of_nil in He.
  - simpl. destruct (decide (x = e)) as [->|Hne]; [done|].
    apply elem_of_cons in He as [->|He]; [done|].
    rewrite (IH He) at 1. apply Permutation_swap.
Qed.

Lemma heappop_perm (h rest : list (Z * cell)) (e : Z * cell) :
  heappop h = Some (e, rest) → h ≡ₚ e :: rest.
Proof.
  destruct h as [|x t]; [done|]. simpl. intros [= <- <-].
  apply (remove_first_perm _ (x :: t)), least_elem.
Qed.

Lemma heappop_none (h : list (Z * cell)) : heappop h = None → h = [].
Proof. by destruct h. Qed.

(** ** The board bounds the closed set *)

Lemma in_bounds_board (c : cell) : in_bounds c = true → c ∈ board_cells.
Proof.
  destruct c as [r k]. unfold in_bounds. cbn [fst snd]. intros H.
  repeat (apply andb_prop in H as [H ?]).
  unfold board_cells, GRID_SIZE in *.
  apply list_elem_of_bind. exists r. split.
  - apply list_elem_of_bind. exists k. split; [apply list_elem_of_here|].
    apply elem_of_seqZ. lia.
  - apply elem_of_seqZ. lia.
Qed.

Lemma passable_in_bounds (grid : list (list Z)) (c : cell) :
  passable grid c = true → in_bounds c = true.
Proof.
  unfold passable. destruct (in_bounds c); [done|]. simpl. discriminate.
Qed.

Lemma closed_size_bound (grid : list (list Z)) (start : cell) (X : gset cell) :
  (∀ c, c ∈ X → c = start ∨ passable grid c = true) →
  (size X < LOOP_BOUND)%nat.
Proof.
  intros HX.
  assert (length (elements X) ≤ length (start :: board_cells))%nat as Hlen.
  { apply submseteq_length, NoDup_submseteq; [apply NoDup_elements|].
    intros c Hc. apply elem_of_elements, HX in Hc as [->|Hc].
    - apply list_elem_of_here.
    - by apply list_elem_of_further, in_bounds_board, passable_in_bounds with grid. }
  unfold size, set_size. simpl. revert Hlen.
  change (length (start :: board_cells)) with 226%nat.
  change LOOP_BOUND with 227%nat. lia.
Qed.

(** ** The invariant holds throughout the search *)

Section Search.

Variable grid : list (list Z).
Variables start goal : cell.

Local Abbreviation inv := (PathFinder.inv grid start).

Lemma inv_init : inv (init start goal).
Proof.
  split; cbn [init open_set closed_set g_score came_from heappush app fmap list_fmap snd].
  - apply NoDup_singleton.
  - intros c _. apply not_elem_of_empty.
  - intros c ->%list_elem_of_singleton. rewrite lookup_singleton_eq. by eexists.
  - intros c ->%list_elem_of_singleton. by left.
  - intros c Hc. by apply not_elem_of_empty in Hc.
  - intros n m Hnm. by rewrite lookup_empty in Hnm.
  - intros n k [<- <-]%lookup_singleton_Some. rewrite size_empty. lia.
  - intros n k [<- _]%lookup_singleton_Some. by left.
  - apply lookup_empty.
  - right. by intros c ->%list_elem_of_singleton.
  - intros n [k [<- _]%lookup_singleton_Some]. right. apply list_elem_of_here.
  - rewrite lookup_singleton_eq. by eexists.
Qed.

Lemma inv_close (st : search) (e : Z * cell) (rest : list (Z * cell)) :
  inv st → heappop (open_set st) = Some (e, rest) →
  inv (close st e.2 rest)
  ∧ start ∈ closed_set (close st e.2 rest)
  ∧ ∃ gc, g_score st !! e.2 = Some gc
          ∧ gc + 1 ≤ Z.of_nat (size (closed_set (close st e.2 rest)))
          ∧ size (closed_set (close st e.2 rest)) = S (size (closed_set st)).
Proof.
  intros Hinv Hpop. apply heappop_perm in Hpop.
  assert (Hnd : NoDup (e.2 :: rest.*2)).
  { change (NoDup ((e :: rest).*2)). rewrite <- Hpop. apply Hinv. }
  apply NoDup_cons in Hnd as [Hfresh Hnd].
  assert (Hsub : ∀ c, c ∈ rest.*2 → c ∈ (open_set st).*2).
  { intros c Hc. rewrite Hpop. by apply list_elem_of_further. }
  assert (Hcur : e.2 ∈ (open_set st).*2).
  { rewrite Hpop. apply list_elem_of_here. }
  assert (Hnew : e.2 ∉ closed_set st) by by apply Hinv.
  assert (Hsize : size ({[e.2]} ∪ closed_set st) = S (size (closed_set st))).
  { rewrite size_union by by apply disjoint_singleton_l.
    by rewrite size_singleton. }
  assert (Hstart : start ∈ {[e.2]} ∪ closed_set st).
  { destruct (inv_start_first st Hinv) as [?|Hall].
    - by apply elem_of_union_r.
    - apply elem_of_union_l, elem_of_singleton. symmetry. by apply Hall. }
  split; [split|split]; cbn [close open_set closed_set g_score came_from].
  - done.
  - intros c Hc [Heq%elem_of_singleton|Hin]%elem_of_union.
    + subst c. by apply Hfresh.
    + apply (inv_open_fresh st Hinv c); [by apply Hsub|done].
  - intros c Hc. by apply (inv_open_scored st Hinv), Hsub.
  - intros c Hc. by apply (inv_open_board st Hinv), Hsub.
  - intros c [->%elem_of_singleton|Hin]%elem_of_union.
    + by apply (inv_open_board st Hinv).
    + by apply (inv_closed_board st Hinv).
  - intros n m Hnm. destruct (inv_came_from st Hinv n m Hnm) as (?&?&?&?).
    split; [by apply elem_of_union_r|done].
  - intros n k Hk. apply (inv_g_range st Hinv) in Hk. rewrite Hsize. lia.
  - apply Hinv.
  - apply Hinv.
  - by left.
  - intros n Hn. destruct (inv_tracked st Hinv n Hn) as [Hin|Hin].
    + left. by apply elem_of_union_r.
    + rewrite Hpop, fmap_cons in Hin. apply elem_of_cons in Hin as [->|Hin].
      * left. by apply elem_of_union_l, elem_of_singleton.
      * by right.
  - apply (inv_start_scored st Hinv).
  - done.
  - destruct (inv_open_scored st Hinv _ Hcur) as [gc Hgc]. exists gc.
    split; [done|]. split; [|done]. rewrite Hsize.
    apply (inv_g_range st Hinv) in Hgc. lia.
Qed.

Lemma inv_relax (st : search) (current : cell) (gc : Z) (d : Z * Z) :
  inv st → d ∈ DIRECTIONS →
  current ∈ closed_set st → start ∈ closed_set st →
  g_score st !! current = Some gc →
  gc + 1 ≤ Z.of_nat (size (closed_set st)) →
  ∃ st', relax grid goal current st d = Ok st' ∧ inv st'
         ∧ closed_set st' = closed_set st
         ∧ g_score st' !! current = Some gc.
Proof.
  intros Hinv Hd Hcur Hstart Hgc Hsize. unfold relax.
  set (neighbor := shift current d).
  destruct (negb (in_bounds neighbor) || (grid_at grid neighbor =? 1)) eqn:Hskip;
    [by exists st|].
  assert (Hpass : passable grid neighbor = true)
    by (unfold passable; by rewrite Hskip).
  case_bool_decide as Hclosed; [by exists st|].
  rewrite Hgc.
  assert (Hne : neighbor ≠ current) by (by intros Heq; rewrite Heq in Hclosed).
  assert (Hns : neighbor ≠ start) by (by intros Heq; rewrite Heq in Hclosed).
  assert (Hg0 : 0 ≤ gc) by (apply (inv_g_range st Hinv) in Hgc; lia).
  match goal with |- context [if ?b then _ else _] => destruct b eqn:Hbetter end;
    [|by exists st].
  eexists. split; [done|].
  split; [|split; [done|by cbn; rewrite lookup_insert_ne]].
  split; cbn [open_set closed_set g_score came_from].
  - unfold in_open. case_bool_decide as Hin; [apply Hinv|].
    unfold heappush. rewrite fmap_app. apply NoDup_app.
    split; [apply Hinv|]. split; [|apply NoDup_singleton].
    intros c Hc ->%list_elem_of_singleton. done.
  - intros c Hc. unfold in_open, heappush in Hc.
    case_bool_decide; [by apply (inv_open_fresh st Hinv)|].
    rewrite fmap_app in Hc. apply elem_of_app in Hc as [Hc|Hc].
    + by apply (inv_open_fresh st Hinv).
    + by apply list_elem_of_singleton in Hc as ->.
  - intros c Hc. unfold in_open, heappush in Hc.
    destruct (decide (c = neighbor)) as [->|Hcn];
      [rewrite lookup_insert_eq; by eexists|].
    rewrite lookup_insert_ne by done.
    case_bool_decide; [by apply (inv_open_scored st Hinv)|].
    rewrite fmap_app in Hc. apply elem_of_app in Hc as [Hc|Hc].
    + by apply (inv_open_scored st Hinv).
    + by apply list_elem_of_singleton in Hc.
  - intros c Hc. unfold in_open, heappush in Hc.
    case_bool_decide; [by apply (inv_open_board st Hinv)|].
    rewrite fmap_app in Hc. apply elem_of_app in Hc as [Hc|Hc].
    + by apply (inv_open_board st Hinv).
    + apply list_elem_of_singleton in Hc as ->. by right.
  - apply Hinv.
  - intros n m Hnm.
    destruct (decide (n = neighbor)) as [->|Hnn].
    + rewrite lookup_insert_eq in Hnm. injection Hnm as <-.
      split; [done|]. split; [by exists d|]. split; [done|].
      exists gc. rewrite lookup_insert_ne by done.
      by rewrite lookup_insert_eq.
    + rewrite lookup_insert_ne in Hnm by done.
      destruct (inv_came_from st Hinv n m Hnm) as (Hm & Hdir & Hp & gm & Hgm & Hgn).
      split; [done|]. split; [done|]. split; [done|].
      exists gm. rewrite !lookup_insert_ne; [done|done|].
      intros Heq. by rewrite Heq in Hclosed.
  - intros n k Hk.
    destruct (decide (n = neighbor)) as [->|Hnn].
    + rewrite lookup_insert_eq in Hk. injection Hk as <-. lia.
    + rewrite lookup_insert_ne in Hk by done. by apply (inv_g_range st Hinv n).
  - intros n k Hk.
    destruct (decide (n = neighbor)) as [->|Hnn].
    + right. rewrite lookup_insert_eq. by eexists.
    + rewrite lookup_insert_ne in Hk by done.
      rewrite lookup_insert_ne by done. by apply (inv_g_origin st Hinv n k).
  - rewrite lookup_insert_ne by done. apply Hinv.
  - by left.
  - intros n Hn. unfold in_open, heappush.
    destruct (decide (n = neighbor)) as [->|Hnn].
    + right. case_bool_decide; [done|].
      rewrite fmap_app. apply elem_of_app. right. apply list_elem_of_here.
    + rewrite lookup_insert_ne in Hn by done.
      destruct (inv_tracked st Hinv n Hn) as [?|Hin]; [by left|right].
      case_bool_decide; [done|]. rewrite fmap_app. apply elem_of_app. by left.
  - rewrite lookup_insert_ne by done. apply (inv_start_scored st Hinv).
Qed.

Lemma inv_relax_all (ds : list (Z * Z)) (st : search) (current : cell) (gc : Z) :
  inv st → (∀ d, d ∈ ds → d ∈ DIRECTIONS) →
  current ∈ closed_set st → start ∈ closed_set st →
  g_score st !! current = Some gc →
  gc + 1 ≤ Z.of_nat (size (closed_set st)) →
  ∃ st', relax_all grid goal current st ds = Ok st' ∧ inv st'
         ∧ closed_set st' = closed_set st.
Proof.
  revert st. induction ds as [|d ds IH]; intros st Hinv Hds Hcur Hstart Hgc Hsize.
  - by exists st.
  - destruct (inv_relax st current gc d) as (st1 & Hrun & Hinv1 & Hcl & Hgc1);
      [done|apply Hds, list_elem_of_here|done..|].
    destruct (IH st1) as (st2 & Hrun2 & Hinv2 & Hcl2);
      [done|by intros; apply Hds, list_elem_of_further|by rewrite Hcl..|done|by rewrite Hcl|].
    exists st2. cbn [relax_all]. rewrite Hrun. cbn. by rewrite Hcl2.
Qed.

(** The walk back along [came_from] ends, at [start], and spells a path. *)
Lemma walk_back_spec (st : search) (fuel : nat) :
  inv st →
  ∀ (current : cell) (path : list cell) (k : Z),
    g_score st !! current = Some k → (Z.to_nat k < fuel)%nat →
    ∃ tail, walk_back fuel (came_from st) current path = Ok (path ++ tail)
            ∧ walk grid start current (reverse (tail ++ [start])).
Proof.
  intros Hinv. induction fuel as [|fuel IH]; intros current path k Hk Hfuel; [lia|].
  cbn [walk_back]. destruct (came_from st !! current) as [prev|] eqn:Hprev.
  - destruct (inv_came_from st Hinv _ _ Hprev) as (_ & (d & Hd & Hshift) & Hp & gm & Hgm & Hgn).
    assert (k = gm + 1) as -> by congruence.
    assert (0 ≤ gm) by (apply (inv_g_range st Hinv) in Hgm; lia).
    destruct (IH prev (path ++ [current]) gm Hgm) as (tail & Hrun & Hwalk); [lia|].
    exists (current :: tail). split.
    + by rewrite Hrun, <- app_assoc.
    + cbn [app]. rewrite reverse_cons. by apply walk_move with prev d.
  - exists []. split; [by rewrite app_nil_r|].
    destruct (inv_g_origin st Hinv _ _ Hk) as [->|[? Hsome]]; [|congruence].
    apply walk_here.
Qed.

Lemma reconstruct_spec (st : search) (current : cell) :
  inv st → current ∈ (open_set st).*2 →
  ∃ p, reconstruct (came_from st) start current = Ok p ∧ walk grid start current p.
Proof.
  intros Hinv Hcur. destruct (inv_open_scored st Hinv _ Hcur) as [k Hk].
  destruct (walk_back_spec st LOOP_BOUND Hinv current [] k Hk) as (tail & Hrun & Hwalk).
  - pose proof (inv_g_range st Hinv _ _ Hk).
    pose proof (closed_size_bound grid start _ (inv_closed_board st Hinv)). lia.
  - eexists. unfold reconstruct. rewrite Hrun. by cbn.
Qed.

(** The loop returns within its bound, and what it returns is a path. *)
Lemma search_loop_spec (fuel : nat) (st : search) :
  inv st → (LOOP_BOUND ≤ size (closed_set st) + fuel)%nat →
  ∃ r, search_loop fuel grid start goal st = Ok r
       ∧ ∀ p, r = Some p → walk grid start goal p.
Proof.
  revert st. induction fuel as [|fuel IH]; intros st Hinv Hfuel.
  - pose proof (closed_size_bound grid start _ (inv_closed_board st Hinv)). lia.
  - cbn [search_loop]. destruct (heappop (open_set st)) as [[e rest]|] eqn:Hpop.
    + case_bool_decide as Hgoal.
      * destruct (reconstruct_spec st e.2 Hinv) as (p & Hrun & Hwalk).
        { rewrite (heappop_perm _ _ _ Hpop). apply list_elem_of_here. }
        exists (Some p). rewrite Hrun. split; [done|].
        intros ? [= <-]. by rewrite <- Hgoal.
      * destruct (inv_close st e rest Hinv Hpop) as (Hinv1 & Hstart & gc & Hgc & Hsz & Hgrow).
        destruct (inv_relax_all DIRECTIONS (close st e.2 rest) e.2 gc)
          as (st2 & Hrun & Hinv2 & Hcl); [done|done| |done|done|done|].
        { apply elem_of_union_l, elem_of_singleton. done. }
        fold (close st e.2 rest). rewrite Hrun. cbn.
        apply IH; [done|]. rewrite Hcl, Hgrow. lia.
    + exists None. by split.
Qed.

(** *** The search misses no cell *)

Lemma relax_grows (st st' : search) (current : cell) (d : Z * Z) :
  relax grid goal current st d = Ok st' →
  closed_set st' = closed_set st
  ∧ ∀ c, c ∈ (open_set st).*2 → c ∈ (open_set st').*2.
Proof.
  unfold relax. intros H.
  destruct (negb _ || _); [by injection H as <-|].
  case_bool_decide; [by injection H as <-|].
  destruct (g_score st !! current); [|done].
  match type of H with context [if ?b then _ else _] => destruct b end;
    [|by injection H as <-].
  injection H as <-. cbn [open_set closed_set]. split; [done|].
  intros c Hc. unfold in_open, heappush. case_bool_decide; [done|].
  rewrite fmap_app. apply elem_of_app. by left.
Qed.

Lemma relax_covers (st st' : search) (current : cell) (d : Z * Z) :
  inv st → relax grid goal current st d = Ok st' →
  passable grid (shift current d) = true →
  shift current d ∈ closed_set st' ∨ shift current d ∈ (open_set st').*2.
Proof.
  unfold relax, passable. intros Hinv H Hpass.
  destruct (negb _ || _); [done|].
  case_bool_decide; [injection H as <-; by left|].
  destruct (g_score st !! current); [|done].
  destruct (g_score st !! shift current d) as [gn|] eqn:Hgn.
  - destruct (z + 1 <? gn).
    + injection H as <-. right. cbn [open_set]. unfold in_open, heappush.
      case_bool_decide; [done|].
      rewrite fmap_app. apply elem_of_app. right. apply list_elem_of_here.
    + injection H as <-. apply (inv_tracked st Hinv). by eexists.
  - injection H as <-. right. cbn [open_set]. unfold in_open, heappush.
    case_bool_decide; [done|].
    rewrite fmap_app. apply elem_of_app. right. apply list_elem_of_here.
Qed.

Lemma relax_all_covers (ds : list (Z * Z)) (current : cell) (gc : Z) :
  ∀ st st',
    inv st → (∀ d, d ∈ ds → d ∈ DIRECTIONS) →
    current ∈ closed_set st → start ∈ closed_set st →
    g_score st !! current = Some gc →
    gc + 1 ≤ Z.of_nat (size (closed_set st)) →
    relax_all grid goal current st ds = Ok st' →
    covered grid st' current ds
    ∧ closed_set st' = closed_set st
    ∧ ∀ c, c ∈ (open_set st).*2 → c ∈ (open_set st').*2.
Proof.
  induction ds as [|d ds IH]; intros st st' Hinv Hds Hcur Hstart Hgc Hsize Hrun.
  - injection Hrun as <-. split; [|done]. intros d Hd. by apply elem_of_nil in Hd.
  - cbn [relax_all] in Hrun.
    destruct (inv_relax st current gc d) as (st1 & Hrun1 & Hinv1 & Hcl1 & Hgc1);
      [done|apply Hds, list_elem_of_here|done..|].
    rewrite Hrun1 in Hrun. cbn [mbind result_bind] in Hrun.
    destruct (relax_grows _ _ _ _ Hrun1) as [_ Hgrow1].
    destruct (IH st1 st') as (Hcov & Hcl & Hgrow);
      [done|by intros; apply Hds, list_elem_of_further|by rewrite Hcl1..
      |done|by rewrite Hcl1|done|].
    split; [|split; [by rewrite Hcl, Hcl1|by intros c Hc; apply Hgrow, Hgrow1]].
    intros d' [->|Hd']%elem_of_cons Hpass; [|by apply Hcov].
    destruct (relax_covers _ _ _ _ Hinv Hrun1 Hpass) as [Hin|Hin].
    + left. by rewrite Hcl.
    + right. by apply Hgrow.
Qed.

(** When the queue runs dry, the closed cells are all the cells that a
    walk from [start] can reach, and [goal] is not one of them. *)
Lemma search_loop_none (fuel : nat) :
  ∀ st,
    inv st → frontier grid st → goal ∉ closed_set st →
    search_loop fuel grid start goal st = Ok None →
    ∀ p, ¬ walk grid start goal p.
Proof.
  induction fuel as [|fuel IH]; intros st Hinv Hfront Hgoal Hrun; [done|].
  cbn [search_loop] in Hrun.
  destruct (heappop (open_set st)) as [[e rest]|] eqn:Hpop.
  - case_bool_decide as Hcur.
    { by destruct (reconstruct (came_from st) start e.2). }
    fold (close st e.2 rest) in Hrun.
    destruct (inv_close st e rest Hinv Hpop) as (Hinv1 & Hstart & gc & Hgc & Hsz & _).
    assert (Hin1 : e.2 ∈ closed_set (close st e.2 rest))
      by (by apply elem_of_union_l, elem_of_singleton).
    destruct (relax_all grid goal e.2 (close st e.2 rest) DIRECTIONS) as [st2|] eqn:Hrun2;
      [|done].
    cbn [mbind result_bind] in Hrun.
    destruct (inv_relax_all DIRECTIONS (close st e.2 rest) e.2 gc)
      as (st2' & Hrun2' & Hinv2 & _); [done..|].
    assert (st2' = st2) as -> by congruence.
    destruct (relax_all_covers DIRECTIONS e.2 gc _ _ Hinv1 (fun _ H => H)
                Hin1 Hstart Hgc Hsz Hrun2) as (Hcov & Hcl & Hgrow).
    apply (IH st2); [done| | |done].
    + intros c Hc. rewrite Hcl in Hc.
      apply elem_of_union in Hc as [->%elem_of_singleton|Hc]; [done|].
      intros d Hd Hpass. rewrite Hcl.
      destruct (Hfront c Hc d Hd Hpass) as [Hin|Hin].
      * left. by apply elem_of_union_r.
      * rewrite (heappop_perm _ _ _ Hpop), fmap_cons in Hin.
        apply elem_of_cons in Hin as [->|Hin]; [by left|right; by apply Hgrow].
    + rewrite Hcl. intros [->%elem_of_singleton|Hin]%elem_of_union; done.
  - apply heappop_none in Hpop.
    assert (Hall : ∀ c p, walk grid start c p → c ∈ closed_set st).
    { intros c p Hw. induction Hw as [|b c p d Hw IHw Hd -> Hpass].
      - destruct (inv_tracked st Hinv start (inv_start_scored st Hinv)) as [?|Hin]; [done|].
        rewrite Hpop in Hin. by apply elem_of_nil in Hin.
      - destruct (Hfront b IHw d Hd Hpass) as [?|Hin]; [done|].
        rewrite Hpop in Hin. by apply elem_of_nil in Hin. }
    intros p Hp. by apply Hgoal, (Hall goal p).
Qed.

End Search.

(** [find_path] always returns: no lookup fails and no loop overruns. *)
Lemma find_path_run_returns (grid : list (list Z)) (start goal : cell) :
  find_path_run grid start goal = Ok (find_path grid start goal).
Proof.
  unfold find_path.
  destruct (search_loop_spec grid start goal LOOP_BOUND (init start goal))
    as (r & Hrun & _); [apply inv_init|lia|].
  unfold find_path_run. by rewrite Hrun.
Qed.

(** A returned path leads from [start] to [goal]. *)
Lemma find_path_walk (grid : list (list Z)) (start goal : cell) (p : list cell) :
  find_path grid start goal = Some p → walk grid start goal p.
Proof.
  unfold find_path.
  destruct (search_loop_spec grid start goal LOOP_BOUND (init start goal))
    as (r & Hrun & Hwalk); [apply inv_init|lia|].
  unfold find_path_run. rewrite Hrun. apply Hwalk.
Qed.

(** [find_path] returns [None] only when no path leads to [goal]. *)
Lemma find_path_none (grid : list (list Z)) (start goal : cell) :
  find_path grid start goal = None → ∀ p, ¬ walk grid start goal p.
Proof.
  intros Hnone. apply (search_loop_none grid start goal LOOP_BOUND (init start goal)).
  - apply inv_init.
  - intros c Hc. by apply not_elem_of_empty in Hc.
  - apply not_elem_of_empty.
  - fold (find_path_run grid start goal). by rewrite find_path_run_returns, Hnone.
Qed.

(** Whenever a path leads to [goal], [find_path] returns one. *)
Lemma find_path_finds (grid : list (list Z)) (start goal : cell) (p : list cell) :
  walk grid start goal p →
  ∃ q, find_path grid start goal = Some q ∧ walk grid start goal q.
Proof.
  intros Hp. destruct (find_path grid start goal) as [q|] eqn:Hq.
  - exists q. split; [done|]. by apply find_path_walk.
  - by destruct (find_path_none grid start goal Hq p).
Qed.

(** The last cell of a path that moves at all may be entered. *)
Lemma walk_end (grid : list (list Z)) (start c : cell) (p : list cell) :
  walk grid start c p → c = start ∨ passable grid c = true.
Proof. destruct 1; [by left|by right]. Qed.

(** [steps_ok] is a sound checker for [walk]. *)
Lemma steps_ok_walk (grid : list (list Z)) (start : cell) (rest : list cell) :
  ∀ (a c : cell) (p : list cell),
    walk grid start a p → steps_ok grid a rest = true →
    last (a :: rest) = Some c →
    walk grid start c (p ++ rest).
Proof.
  induction rest as [|b rest IH]; intros a c p Hp Hok Hlast.
  - injection Hlast as <-. by rewrite app_nil_r.
  - cbn [steps_ok] in Hok.
    apply andb_prop in Hok as [[Hd Hb]%andb_prop Hrest].
    apply existsb_exists in Hd as (d & Hd & Heq%bool_decide_eq_true).
    rewrite last_cons_cons in Hlast.
    specialize (IH b c (p ++ [b])). rewrite <- app_assoc in IH.
    apply IH; [|done|done].
    apply walk_move with a d; [done| |done|done].
    by apply list_elem_of_In.
Qed.

End PathFinderFacts.

(** * Properties of the game *)

Module GameFacts.

Import PathFinder Game PathFinderFacts.

(** ** The robot loop *)

Lemma dict_set_fresh (d : list (cell * Z)) (k : cell) (v : Z) :
  k ∉ d.*1 → dict_set d k v = d ++ [(k, v)].
Proof. intros Hk. unfold dict_set. by rewrite bool_decide_eq_false_2. Qed.

Lemma move_robots_moved (grid : list (list Z)) (goal : cell) (rs : list (cell * Z)) :
  ∀ acc,
    (∀ r, r ∈ rs → steps_onto grid goal r.1 = false) →
    NoDup (acc.*1 ++ ((fun r : cell * Z => (next_position grid goal r.1, r.2)) <$> rs).*1) →
    move_robots grid (Some goal) rs acc
    = Ok (Moved (acc ++ ((fun r : cell * Z => (next_position grid goal r.1, r.2)) <$> rs))).
Proof.
  induction rs as [|[pos number] rs IH]; intros acc Hfree Hnd.
  - cbn. by rewrite app_nil_r.
  - cbn [move_robots]. rewrite find_path_run_returns. cbn [mbind result_bind].
    pose proof (Hfree (pos, number) (list_elem_of_here _ _)) as Hhead.
    assert (Hkey : next_position grid goal pos ∉ acc.*1).
    { apply NoDup_app in Hnd as (_ & Hdis & _). intros Hin.
      apply (Hdis _ Hin). cbn. apply list_elem_of_here. }
    assert (Hnext : move_robots grid (Some goal) rs
                      (acc ++ [(next_position grid goal pos, number)])
                    = Ok (Moved (acc ++ (next_position grid goal pos, number)
                                  :: ((fun r : cell * Z => (next_position grid goal r.1, r.2)) <$> rs)))).
    { rewrite IH.
      - by rewrite <- app_assoc.
      - intros r Hr. by apply Hfree, list_elem_of_further.
      - rewrite fmap_app, <- app_assoc. exact Hnd. }
    rewrite fmap_cons. cbn [fst snd] in *.
    unfold steps_onto in Hhead. unfold next_position in Hkey, Hnext |- * at 1.
    destruct (find_path grid pos goal) as [[|a [|b t]]|];
      rewrite ?dict_set_fresh by done; try done.
    by rewrite Hhead.
Qed.

Lemma move_robots_captured (grid : list (list Z)) (goal : cell) (rs : list (cell * Z)) :
  ∀ acc,
    existsb (fun r : cell * Z => steps_onto grid goal r.1) rs = true →
    move_robots grid (Some goal) rs acc = Ok Captured.
Proof.
  induction rs as [|[pos number] rs IH]; intros acc Hex; [done|].
  cbn [move_robots existsb fst] in *. rewrite find_path_run_returns.
  cbn [mbind result_bind]. unfold steps_onto in Hex at 1.
  destruct (find_path grid pos goal) as [[|a [|b t]]|]; cbn in Hex; try by apply IH.
  case_bool_decide; [done|]. by apply IH.
Qed.

(** What [game_over] leaves behind. *)
Lemma game_over_spec (st : game) :
  game_running (game_over st) = false
  ∧ game_status (game_over st) = GameOver
  ∧ steps (game_over st) = steps st
  ∧ robots (game_over st) = robots st
  ∧ intruder_pos (game_over st) = intruder_pos st
  ∧ high_score (game_over st) = Z.max (high_score st) (steps st)
  ∧ high_score_json (game_over st)
    = (if high_score st <? steps st then Some (steps st) else high_score_json st)
  ∧ leaderboard_json (game_over st)
    = Some (take 5 (sort_reverse (load_leaderboard st ++ [steps st])))
  ∧ leaderboard (game_over st)
    = take 5 (sort_reverse (load_leaderboard st ++ [steps st])).
Proof.
  unfold game_over, update_leaderboard, update_high_score.
  cbn [set_status steps high_score].
  destruct (high_score st <? steps st) eqn:Hlt; cbn; repeat split; lia.
Qed.

(** A tick in which some robot steps onto the intruder ends the game. *)
Lemma update_game_capture (st : game) (current_time : Z) (goal : cell) :
  game_running st = true → tick_due st current_time = true →
  intruder_pos st = Some goal → captures st goal = true →
  update_game st current_time = Ok (game_over st).
Proof.
  intros Hrun Hdue Hgoal Hcap. unfold update_game.
  rewrite Hrun, Hdue, Hgoal. cbn [negb].
  by rewrite (move_robots_captured _ _ _ [] Hcap).
Qed.

(** ** The key handler *)

Lemma keydown_accepted (st : game) (k : key) :
  accepted st k = true →
  ∃ p, intruder_pos st = Some p
       ∧ keydown st k = Ok (count_step (set_intruder_pos st (Some (target p k).1))).
Proof.
  unfold accepted, keydown. intros [Hrun Hacc]%andb_prop.
  rewrite Hrun, !andb_false_r. cbn zeta iota beta. rewrite Hrun.
  destruct (intruder_pos st) as [p|] eqn:Hp; [|done]. exists p. split; [done|].
  destruct (target p k) as [new_pos moved].
  apply andb_prop in Hacc as [[-> Hin]%andb_prop Hfree].
  cbn [fst]. by rewrite Hin, Hfree.
Qed.

Lemma ramp_S (n : nat) : ramp (S n) = (ramp n + ROBOT_SPEED_INCREASE)%float.
Proof. done. Qed.

Lemma count_step_ramp (st : game) :
  0 ≤ steps st →
  robot_speed st = ramp (Z.to_nat (steps st `div` ROBOT_SPEED_INCREASE_STEPS)) →
  steps (count_step st) = steps st + 1
  ∧ robot_speed (count_step st)
    = ramp (Z.to_nat ((steps st + 1) `div` ROBOT_SPEED_INCREASE_STEPS)).
Proof.
  intros Hpos Hspeed. unfold count_step, ROBOT_SPEED_INCREASE_STEPS in *.
  destruct ((0 <? steps st + 1) && ((steps st + 1) `mod` 100 =? 0)) eqn:Hramp;
    cbn [set_progress steps robot_speed]; (split; [done|]); rewrite Hspeed.
  - apply andb_prop in Hramp as [_ Hmod%Z.eqb_eq].
    replace ((steps st + 1) `div` 100) with (steps st `div` 100 + 1)
      by (Z.to_euclidean_division_equations; lia).
    rewrite Z2Nat.inj_add by (Z.to_euclidean_division_equations; lia).
    by rewrite Nat.add_1_r.
  - apply andb_false_iff in Hramp as [Hneg%Z.ltb_ge|Hmod%Z.eqb_neq]; [lia|].
    f_equal. f_equal. Z.to_euclidean_division_equations; lia.
Qed.

Lemma play_ramp (ks : list key) :
  ∀ st,
    0 ≤ steps st →
    robot_speed st = ramp (Z.to_nat (steps st `div` ROBOT_SPEED_INCREASE_STEPS)) →
    all_accepted st ks = true →
    ∃ st', play st ks = Ok st'
           ∧ steps st' = steps st + Z.of_nat (length ks)
           ∧ robot_speed st'
             = ramp (Z.to_nat ((steps st + Z.of_nat (length ks)) `div` ROBOT_SPEED_INCREASE_STEPS)).
Proof.
  induction ks as [|k ks IH]; intros st Hpos Hspeed Hacc.
  - exists st. cbn. rewrite Z.add_0_r. by split.
  - cbn [all_accepted] in Hacc. apply andb_prop in Hacc as [Hk Hrest].
    destruct (keydown_accepted st k Hk) as (p & Hp & Hkey).
    rewrite Hkey in Hrest. cbn [play]. rewrite Hkey. cbn [mbind result_bind].
    destruct (count_step_ramp (set_intruder_pos st (Some (target p k).1)) Hpos Hspeed)
      as [Hsteps Hsp].
    cbn [set_intruder_pos steps] in Hsteps, Hsp. rewrite <- Hsteps in Hsp.
    destruct (IH _ ltac:(rewrite Hsteps; lia) Hsp Hrest) as (st' & Hrun & Hn & Hv).
    exists st'. split; [done|]. rewrite Hv, Hn, Hsteps. cbn [length].
    split; [lia|]. do 3 f_equal. lia.
Qed.

(** ** The leaderboard *)

#[local] Instance before_trans : Transitive before.
Proof. unfold before. intros a b c ??. lia. Qed.

#[local] Instance before_total : Total before.
Proof. unfold before. intros a b. lia. Qed.

Lemma sort_reverse_sorted (l : list Z) : StronglySorted before (sort_reverse l).
Proof. apply StronglySorted_merge_sort; apply _. Qed.

Lemma update_leaderboard_spec (st : game) :
  leaderboard_json (update_leaderboard st).1 = Some (update_leaderboard st).2
  ∧ StronglySorted before (update_leaderboard st).2
  ∧ (length (update_leaderboard st).2 ≤ 5)%nat.
Proof.
  unfold update_leaderboard. cbn [fst snd save_leaderboard leaderboard_json].
  split; [done|]. split.
  - apply (StronglySorted_app_1_l _ _ (drop 5 (sort_reverse (load_leaderboard st ++ [steps st])))).
    rewrite take_drop. apply sort_reverse_sorted.
  - rewrite length_take. lia.
Qed.

End GameFacts.

(** * The properties of the specification *)

Import PathFinder Game Scenario PathFinderFacts GameFacts.

(** ** Path finding *)

(** C1 (pathfinding optimality), at a failing input.  On the board whose
    only obstacle is (1, 1), [find_path] from (2, 4) to (1, 0) returns a
    path of eight cells, although a path of six cells leads from the start
    to the goal through free in-bounds cells: the returned path is not a
    shortest one. *)
Theorem find_path_takes_detour :
  find_path_run detour_grid (2, 4) (1, 0) = Ok (Some detour_path)
  ∧ walk detour_grid (2, 4) (1, 0) direct_path
  ∧ (length direct_path < length detour_path)%nat.
Proof.
  split; [by vm_compute|]. split; [|vm_compute; lia].
  apply (steps_ok_walk detour_grid (2, 4) (tail direct_path) (2, 4) (1, 0) [(2, 4)]).
  - apply walk_here.
  - by vm_compute.
  - done.
Qed.

(** C2 as stated fails: from a start cell that is an obstacle,
    [find_path] returns a path instead of [None]. *)
Lemma find_path_from_obstacle :
  ¬ (∀ (grid : list (list Z)) (start goal : cell),
       passable grid start = false ∨ passable grid goal = false →
       find_path_run grid start goal = Ok None).
Proof.
  intros H. specialize (H detour_grid (1, 1) (1, 2) (or_introl eq_refl)).
  vm_compute in H. discriminate.
Qed.

(** C2, amended (completeness and rejection of the goal).  [find_path]
    returns [None] whenever no sequence of moves leads from [start] to
    [goal], each move going to a 4-adjacent cell that is in bounds and not
    an obstacle; in particular whenever [goal] differs from [start] and is
    an obstacle or out of bounds.  The start cell itself is not checked. *)
Theorem find_path_none_when_unreachable
    (grid : list (list Z)) (start goal : cell) :
  (∀ p, ¬ walk grid start goal p) ∨ (goal ≠ start ∧ passable grid goal = false) →
  find_path_run grid start goal = Ok None.
Proof.
  intros Hno. rewrite find_path_run_returns. f_equal.
  destruct (find_path grid start goal) as [p|] eqn:Hp; [exfalso|done].
  apply find_path_walk in Hp. destruct Hno as [Hno|[Hne Hblocked]].
  - by apply (Hno p).
  - apply walk_end in Hp as [?|Hp]; [done|]. by rewrite Hp in Hblocked.
Qed.

Lemma find_path_none_when_unreachable_witness :
  ((∀ p, ¬ walk detour_grid (0, 0) (1, 1) p)
   ∨ ((1, 1) ≠ (0, 0) ∧ passable detour_grid (1, 1) = false))
  ∧ find_path_run detour_grid (0, 0) (1, 1) = Ok None.
Proof.
  assert (H : (∀ p, ¬ walk detour_grid (0, 0) (1, 1) p)
              ∨ ((1, 1) ≠ ((0, 0) : cell) ∧ passable detour_grid (1, 1) = false)).
  { right. split; [discriminate|reflexivity]. }
  split; [exact H|].
  exact (find_path_none_when_unreachable detour_grid (0, 0) (1, 1) H).
Defined.

(** C10 (trivial path).  For every cell [c], obstacle or out of bounds
    included, [find_path(c, c)] returns the one-element path [[c]]. *)
Theorem find_path_same_cell (grid : list (list Z)) (c : cell) :
  find_path_run grid c c = Ok (Some [c]).
Proof.
  unfold find_path_run, init, heappush.
  change LOOP_BOUND with (S (Nat.pred LOOP_BOUND)).
  cbn [search_loop app open_set heappop least foldl remove_first came_from snd].
  rewrite decide_True by done. rewrite bool_decide_eq_true_2 by done.
  unfold reconstruct. change LOOP_BOUND with (S (Nat.pred LOOP_BOUND)).
  cbn [walk_back]. rewrite lookup_empty. done.
Qed.

(** ** The tick *)

(** C3 as stated fails on a capture tick: the robot at (0, 0) has the
    path [(0, 0); (0, 1)] to the intruder, and after the tick it is still
    at (0, 0). *)
Lemma capture_tick_moves_no_robot :
  game_running capture_game = true
  ∧ tick_due capture_game 1000 = true
  ∧ ¬ moves_every_robot capture_game 1000.
Proof.
  split; [done|]. split; [by vm_compute|]. intros H.
  specialize (H (0, 1) (game_over capture_game) eq_refl).
  assert (Hrun : update_game capture_game 1000 = Ok (game_over capture_game))
    by (by vm_compute).
  specialize (H Hrun ((0, 0), 1) (list_elem_of_here _ _)).
  vm_compute in H. apply list_elem_of_singleton in H. discriminate.
Qed.

(** C3, amended (simultaneous update).  In a tick of [update_game] that
    fires without a capture, every robot's next position is a function of
    the grid, the intruder's cell and the robot's own pre-tick cell only;
    when these next positions are pairwise distinct, each robot whose path
    has length at least 2 ends the tick on the path's second cell, each
    robot with no path or a trivial path stays where it was, and the
    robots keep their order and numbers. *)
Theorem update_game_moves_robots (st : game) (current_time : Z) (goal : cell) :
  game_running st = true →
  tick_due st current_time = true →
  intruder_pos st = Some goal →
  captures st goal = false →
  NoDup (moved_robots st goal).*1 →
  update_game st current_time
  = Ok (set_robots st (moved_robots st goal) current_time).
Proof.
  intros Hrun Hdue Hgoal Hcap Hnd. unfold update_game.
  rewrite Hrun, Hdue, Hgoal. cbn [negb].
  rewrite (move_robots_moved (grid st) goal (robots st) []); [done| |done].
  intros r Hr. unfold captures in Hcap.
  destruct (steps_onto (grid st) goal r.1) eqn:Hs; [|done].
  assert (existsb (fun r : cell * Z => steps_onto (grid st) goal r.1) (robots st) = true)
    as Hex; [|congruence].
  apply existsb_exists. exists r. split; [by apply list_elem_of_In|done].
Qed.

Lemma update_game_moves_robots_witness :
  game_running chase_game = true
  ∧ tick_due chase_game 1000 = true
  ∧ intruder_pos chase_game = Some (7, 7)
  ∧ captures chase_game (7, 7) = false
  ∧ NoDup (moved_robots chase_game (7, 7)).*1
  ∧ update_game chase_game 1000
    = Ok (set_robots chase_game (moved_robots chase_game (7, 7)) 1000)
  ∧ moved_robots chase_game (7, 7) = [((0, 1), 1); ((3, 4), 2)].
Proof.
  assert (Hnd : NoDup (moved_robots chase_game (7, 7)).*1).
  { apply (bool_decide_unpack _). by vm_compute. }
  assert (Hdue : tick_due chase_game 1000 = true) by (by vm_compute).
  assert (Hcap : captures chase_game (7, 7) = false) by (by vm_compute).
  split; [reflexivity|]. split; [exact Hdue|]. split; [reflexivity|].
  split; [exact Hcap|]. split; [exact Hnd|]. split.
  - exact (update_game_moves_robots chase_game 1000 (7, 7) eq_refl Hdue eq_refl Hcap Hnd).
  - by vm_compute.
Defined.

(** C4 (robot preservation), at a failing input.  Robot 1 at (0, 0) and
    robot 2 at (1, 1) both have (0, 1) as their next cell; the tick
    captures nothing, and after it only robot 2 is left. *)
Theorem merge_tick_loses_robot :
  robots merge_game = [((0, 0), 1); ((1, 1), 2)]
  ∧ next_position (grid merge_game) (0, 3) (0, 0) = (0, 1)
  ∧ next_position (grid merge_game) (0, 3) (1, 1) = (0, 1)
  ∧ captures merge_game (0, 3) = false
  ∧ ∃ st', update_game merge_game 1000 = Ok st'
           ∧ game_running st' = true
           ∧ robots st' = [((0, 1), 2)].
Proof.
  split; [done|]. split; [by vm_compute|]. split; [by vm_compute|].
  split; [by vm_compute|]. eexists. split; [by vm_compute|]. by split.
Qed.

(** C5 (capture transition), at a failing input.  The intruder stands on
    the cell of robot 1, so that robot's position for the tick is the
    intruder's cell; the tick leaves the game running and no score is
    stored. *)
Theorem overlap_tick_no_capture :
  robots overlap_game = [((0, 1), 1)]
  ∧ intruder_pos overlap_game = Some (0, 1)
  ∧ next_position (grid overlap_game) (0, 1) (0, 1) = (0, 1)
  ∧ ∃ st', update_game overlap_game 1000 = Ok st'
           ∧ game_running st' = true
           ∧ game_status st' = Running
           ∧ leaderboard_json st' = leaderboard_json overlap_game.
Proof.
  split; [done|]. split; [done|]. split; [by vm_compute|].
  eexists. split; [by vm_compute|]. by repeat split.
Qed.

(** ** Progression and input *)

(** C6 as stated fails at 250 moves: the speed is then the binary64
    1.2000000000000002, which is neither Python's [1.2] nor its
    [1.0 + 0.1 * 2]. *)
Lemma speed_after_250_moves :
  steps open_game = 0
  ∧ robot_speed open_game = ROBOT_SPEED_INITIAL
  ∧ all_accepted open_game (pacing 125) = true
  ∧ length (pacing 125) = 250%nat
  ∧ ∃ st', play open_game (pacing 125) = Ok st'
           ∧ (robot_speed st' =? 0x1.3333333333333p+0)%float = false
           ∧ (robot_speed st' =? ROBOT_SPEED_INITIAL + ROBOT_SPEED_INCREASE * 2)%float = false
           ∧ robot_speed st' = 0x1.3333333333334p+0%float.
Proof.
  split; [done|]. split; [done|]. split; [by vm_compute|]. split; [done|].
  eexists. split; [by vm_compute|]. by vm_compute.
Qed.

(** C6, amended (speed progression).  After a run of [n] accepted player
    moves from a fresh start the step count is [n] and the robot speed is
    the result of floor(n / 100) successive binary64 additions of 0.1 to
    1.0; after exactly 100 accepted moves it is Python's [1.1], and after
    250 it is 1.2000000000000002, one unit in the last place above
    Python's [1.2]. *)
Theorem speed_progression (st : game) (ks : list key) :
  steps st = 0 →
  robot_speed st = ROBOT_SPEED_INITIAL →
  all_accepted st ks = true →
  ∃ st', play st ks = Ok st'
         ∧ steps st' = Z.of_nat (length ks)
         ∧ robot_speed st' = ramp (length ks / 100)
         ∧ (length ks = 100%nat → robot_speed st' = 0x1.199999999999ap+0%float)
         ∧ (length ks = 250%nat → robot_speed st' = 0x1.3333333333334p+0%float).
Proof.
  intros Hsteps Hspeed Hacc.
  destruct (play_ramp ks st) as (st' & Hrun & Hn & Hv); [lia|by rewrite Hsteps|done|].
  rewrite Hsteps, Z.add_0_l in Hn, Hv.
  assert (Hramp : robot_speed st' = ramp (length ks / 100)).
  { rewrite Hv. f_equal. unfold ROBOT_SPEED_INCREASE_STEPS.
    rewrite <- (Nat2Z.id (length ks / 100)). f_equal.
    by rewrite Nat2Z.inj_div. }
  exists st'. repeat split; try done.
  - intros Hlen. by rewrite Hramp, Hlen.
  - intros Hlen. by rewrite Hramp, Hlen.
Qed.

Lemma speed_progression_witness :
  steps open_game = 0
  ∧ robot_speed open_game = ROBOT_SPEED_INITIAL
  ∧ all_accepted open_game (pacing 125) = true
  ∧ ∃ st', play open_game (pacing 125) = Ok st'
           ∧ steps st' = Z.of_nat (length (pacing 125))
           ∧ robot_speed st' = ramp (length (pacing 125) / 100)
           ∧ (length (pacing 125) = 100%nat → robot_speed st' = 0x1.199999999999ap+0%float)
           ∧ (length (pacing 125) = 250%nat → robot_speed st' = 0x1.3333333333334p+0%float).
Proof.
  assert (Hacc : all_accepted open_game (pacing 125) = true) by (by vm_compute).
  split; [reflexivity|]. split; [reflexivity|]. split; [exact Hacc|].
  exact (speed_progression open_game (pacing 125) eq_refl eq_refl Hacc).
Defined.

(** C7 (no move on a blocked target).  With the game running, a move
    request whose target cell is out of bounds or an obstacle returns
    without an exception and leaves the whole game state as it was: the
    intruder's position, the step count, the robot speed and everything
    else. *)
Theorem keydown_blocked_move (st : game) (k : key) (p : cell) :
  game_running st = true →
  intruder_pos st = Some p →
  (target p k).2 = true →
  in_bounds (target p k).1 = false ∨ grid_at (grid st) (target p k).1 = 1 →
  keydown st k = Ok st.
Proof.
  intros Hrun Hp Hmove Hblocked. unfold keydown.
  rewrite Hrun, !andb_false_r. cbn zeta iota beta. rewrite Hrun, Hp.
  destruct (target p k) as [new_pos moved]. cbn [fst] in Hblocked.
  destruct Hblocked as [->| ->]; [done|]. by rewrite andb_false_r.
Qed.

Lemma keydown_blocked_move_witness :
  (game_running corner_game = true
   ∧ intruder_pos corner_game = Some (0, 0)
   ∧ (target (0, 0) K_UP).2 = true
   ∧ (in_bounds (target (0, 0) K_UP).1 = false
      ∨ grid_at (grid corner_game) (target (0, 0) K_UP).1 = 1)
   ∧ keydown corner_game K_UP = Ok corner_game)
  ∧ (grid_at (grid corner_game) (target (0, 0) K_DOWN).1 = 1
     ∧ keydown corner_game K_DOWN = Ok corner_game).
Proof.
  split.
  - split; [reflexivity|]. split; [reflexivity|]. split; [reflexivity|].
    split; [left; reflexivity|].
    exact (keydown_blocked_move corner_game K_UP (0, 0) eq_refl eq_refl eq_refl
             (or_introl eq_refl)).
  - split; [reflexivity|].
    exact (keydown_blocked_move corner_game K_DOWN (0, 0) eq_refl eq_refl eq_refl
             (or_intror eq_refl)).
Defined.

(** C8 (leaderboard ordering and cap).  From an empty stored leaderboard,
    recording the scores 50, 10, 90, 30, 70, 20 one at a time leaves
    [90; 70; 50; 30; 20] in the file; and whatever the file held, the list
    [update_leaderboard] stores is the list it returns, is in descending
    order and has at most 5 entries. *)
Theorem leaderboard_sorted_capped :
  leaderboard_json (foldl record_score (new_game empty_grid [] None)
                          [50; 10; 90; 30; 70; 20])
  = Some [90; 70; 50; 30; 20]
  ∧ ∀ st : game,
      leaderboard_json (update_leaderboard st).1 = Some (update_leaderboard st).2
      ∧ StronglySorted (fun a b => b <= a) (update_leaderboard st).2
      ∧ (length (update_leaderboard st).2 ≤ 5)%nat.
Proof. split; [by vm_compute|]. apply update_leaderboard_spec. Qed.

(** C9 as stated fails: after game over (state GAME_OVER, not SETUP) a
    click on a free cell moves the intruder there. *)
Lemma placement_after_game_over :
  game_status finished_game = GameOver
  ∧ intruder_pos finished_game = Some (0, 1)
  ∧ intruder_pos (grid_click finished_game 145 85) = Some (0, 3).
Proof. by vm_compute. Qed.

(** C9, amended (intruder placement gating).  A grid click either is
    honoured, and then the game is not running (it is in SETUP or in
    GAME_OVER), the clicked cell is in bounds, free of obstacles and free
    of robots, and only the intruder position changes; or it is ignored,
    and then the game is running or the click is off the grid or the cell
    is out of bounds, an obstacle or a robot's, and the state is
    unchanged. *)
Theorem grid_click_gate (st : game) (x y : Z) :
  (game_running st = false
   ∧ ∃ c, clicked_cell x y = Some c
          ∧ in_bounds c = true
          ∧ grid_at (grid st) c = 0
          ∧ (c ∉ (robots st).*1)
          ∧ grid_click st x y = set_intruder_pos st (Some c))
  ∨ ((game_running st = true
      ∨ clicked_cell x y = None
      ∨ ∃ c, clicked_cell x y = Some c
             ∧ (in_bounds c = false
                ∨ (grid_at (grid st) c ≠ 0)
                ∨ c ∈ (robots st).*1))
     ∧ grid_click st x y = st).
Proof.
  unfold grid_click. destruct (game_running st) eqn:Hrun; cbn [negb].
  { right. split; [by left|done]. }
  destruct (clicked_cell x y) as [c|] eqn:Hc.
  2: { right. split; [by right; left|done]. }
  unfold placeable. destruct (in_bounds c) eqn:Hin; cbn [andb].
  2: { right. split; [|done]. right. right. exists c. split; [done|by left]. }
  destruct (grid_at (grid st) c =? 0) eqn:Hfree; cbn [andb].
  2: { right. split; [|done]. right. right. exists c. split; [done|].
       right. left. by apply Z.eqb_neq. }
  case_bool_decide as Hrobot; cbn [negb].
  { right. split; [|done]. right. right. exists c. split; [done|]. by right; right. }
  left. split; [done|]. exists c. apply Z.eqb_eq in Hfree. by repeat split.
Qed.

(** * Further properties of the path finder *)

Module PathFacts.

Import PathFinder PathFinderFacts.

(** ** The shape of a path *)

Lemma walk_ends (grid : list (list Z)) (start c : cell) (p : list cell) :
  walk grid start c p → head p = Some start ∧ last p = Some c.
Proof.
  induction 1 as [|b c p d Hw [Hhead Hlast] Hd -> Hpass]; [done|].
  split; [|apply last_snoc].
  destruct p; [done|]. done.
Qed.

Lemma walk_lookup (grid : list (list Z)) (start c : cell) (p : list cell) :
  walk grid start c p →
  ∀ (i : nat) (a b : cell),
    p !! i = Some a → p !! S i = Some b →
    (∃ d, d ∈ DIRECTIONS ∧ b = shift a d) ∧ passable grid b = true.
Proof.
  induction 1 as [|b c p d Hw IH Hd -> Hpass]; intros i a a' Ha Ha'.
  - by destruct i.
  - destruct (decide (S i < length p)%nat) as [Hlt|Hge].
    + rewrite lookup_app_l in Ha by lia. rewrite lookup_app_l in Ha' by lia.
      by apply (IH i).
    + assert (S i = length p) as Hi.
      { apply lookup_lt_Some in Ha'. rewrite length_app in Ha'. cbn in Ha'. lia. }
      rewrite lookup_app_l in Ha by lia.
      rewrite lookup_app_r, Hi, Nat.sub_diag in Ha' by lia. injection Ha' as <-.
      destruct (walk_ends _ _ _ _ Hw) as [_ Hlast].
      rewrite last_lookup, <- Hi in Hlast. cbn in Hlast.
      assert (a = b) as -> by congruence.
      split; [by exists d|done].
Qed.

(** ** No cell twice *)

Section Scores.

Variable grid : list (list Z).
Variables start goal : cell.

Local Abbreviation inv := (PathFinder.inv grid start).

(** Along the walk back the scores fall by one at every cell. *)
Lemma walk_back_scores (st : search) (fuel : nat) :
  inv st →
  ∀ (current : cell) (path : list cell) (k : Z),
    g_score st !! current = Some k → (Z.to_nat k < fuel)%nat →
    ∃ tail, walk_back fuel (came_from st) current path = Ok (path ++ tail)
            ∧ ∀ (i : nat) (c : cell), tail !! i = Some c →
                g_score st !! c = Some (k - Z.of_nat i)
                ∧ is_Some (came_from st !! c).
Proof.
  intros Hinv. induction fuel as [|fuel IH]; intros current path k Hk Hfuel; [lia|].
  cbn [walk_back]. destruct (came_from st !! current) as [prev|] eqn:Hprev.
  - destruct (inv_came_from st Hinv _ _ Hprev) as (_ & _ & _ & gm & Hgm & Hgn).
    assert (k = gm + 1) as -> by congruence.
    assert (0 ≤ gm) by (apply (inv_g_range st Hinv) in Hgm; lia).
    destruct (IH prev (path ++ [current]) gm Hgm) as (tail & Hrun & Htail); [lia|].
    exists (current :: tail). split; [by rewrite Hrun, <- app_assoc|].
    intros [|i] c Hc.
    + injection Hc as <-. rewrite Z.sub_0_r. split; [done|by eexists].
    + destruct (Htail i c Hc) as [Hg Hcf]. split; [|done].
      rewrite Hg. f_equal. lia.
  - exists []. split; [by rewrite app_nil_r|]. intros i c Hc. by destruct i.
Qed.

Lemma reconstruct_NoDup (st : search) (current : cell) (p : list cell) :
  inv st → current ∈ (open_set st).*2 →
  reconstruct (came_from st) start current = Ok p → NoDup p.
Proof.
  intros Hinv Hcur. destruct (inv_open_scored st Hinv _ Hcur) as [k Hk].
  destruct (walk_back_scores st LOOP_BOUND Hinv current [] k Hk) as (tail & Hrun & Htail).
  { pose proof (inv_g_range st Hinv _ _ Hk).
    pose proof (closed_size_bound grid start _ (inv_closed_board st Hinv)). lia. }
  unfold reconstruct. rewrite Hrun. cbn [mbind result_bind app]. intros [= <-].
  rewrite reverse_Permutation. apply NoDup_app. split; [|split; [|apply NoDup_singleton]].
  - apply NoDup_alt. intros i j c Hi Hj.
    destruct (Htail i c Hi) as [Hgi _]. destruct (Htail j c Hj) as [Hgj _].
    rewrite Hgi in Hgj. injection Hgj. lia.
  - intros c [i Hi]%list_elem_of_lookup ->%list_elem_of_singleton.
    destruct (Htail i start Hi) as [_ [m Hm]].
    by rewrite (inv_start_root st Hinv) in Hm.
Qed.

Lemma search_loop_NoDup (fuel : nat) :
  ∀ (st : search) (p : list cell),
    inv st → search_loop fuel grid start goal st = Ok (Some p) → NoDup p.
Proof.
  induction fuel as [|fuel IH]; intros st p Hinv Hrun; [done|].
  cbn [search_loop] in Hrun.
  destruct (heappop (open_set st)) as [[e rest]|] eqn:Hpop; [|done].
  case_bool_decide as Hgoal.
  - destruct (reconstruct (came_from st) start e.2) as [q|] eqn:Hq; [|done].
    injection Hrun as <-. apply (reconstruct_NoDup st e.2); [done| |done].
    rewrite (heappop_perm _ _ _ Hpop). apply list_elem_of_here.
  - fold (close st e.2 rest) in Hrun.
    destruct (inv_close grid start st e rest Hinv Hpop) as (Hinv1 & Hstart & gc & Hgc & Hsz & _).
    destruct (inv_relax_all grid start goal DIRECTIONS (close st e.2 rest) e.2 gc)
      as (st2 & Hrun2 & Hinv2 & _); [done|done| |done|done|done|].
    { by apply elem_of_union_l, elem_of_singleton. }
    rewrite Hrun2 in Hrun. by apply (IH st2).
Qed.

End Scores.

End PathFacts.

(** * Further properties of the game *)

Module TickFacts.

Import PathFinder Game Session PathFinderFacts GameFacts PathFacts.

(** ** The robot dictionary *)

Lemma dict_set_keys (d : list (cell * Z)) (k : cell) (v : Z) :
  (dict_set d k v).*1 = if bool_decide (k ∈ d.*1) then d.*1 else d.*1 ++ [k].
Proof.
  unfold dict_set. case_bool_decide as Hk; [|by rewrite fmap_app].
  clear Hk. induction d as [|[k' v'] d IH]; [done|].
  cbn [fmap list_fmap fst]. case_bool_decide; cbn [fst] in *; by f_equal.
Qed.

Lemma dict_set_NoDup (d : list (cell * Z)) (k : cell) (v : Z) :
  NoDup d.*1 → NoDup (dict_set d k v).*1.
Proof.
  intros Hd. rewrite dict_set_keys. case_bool_decide as Hk; [done|].
  apply NoDup_app. split; [done|]. split; [|apply NoDup_singleton].
  by intros c Hc ->%list_elem_of_singleton.
Qed.

Lemma dict_set_elem (d : list (cell * Z)) (k : cell) (v : Z) (r : cell * Z) :
  r ∈ dict_set d k v → r ∈ d ∨ r = (k, v).
Proof.
  unfold dict_set. case_bool_decide as Hk.
  - intros (r' & Heq & Hr')%list_elem_of_fmap. subst r. case_bool_decide; [by right|by left].
  - intros [? | ->%list_elem_of_singleton]%elem_of_app; [by left|by right].
Qed.

Lemma dict_set_key (d : list (cell * Z)) (k : cell) (v : Z) :
  k ∈ (dict_set d k v).*1 ∧ ∀ c, c ∈ d.*1 → c ∈ (dict_set d k v).*1.
Proof.
  rewrite dict_set_keys. case_bool_decide as Hk; [done|].
  split; [apply elem_of_app; right; apply list_elem_of_here|].
  intros c Hc. apply elem_of_app. by left.
Qed.

Lemma dict_set_length (d : list (cell * Z)) (k : cell) (v : Z) :
  length (dict_set d k v)
  = if bool_decide (k ∈ d.*1) then length d else S (length d).
Proof.
  unfold dict_set. case_bool_decide; [by rewrite length_fmap|].
  rewrite length_app. cbn. lia.
Qed.

(** ** The loop over the robots *)

Lemma move_robots_fold (g : list (list Z)) (goal : cell) (rs : list (cell * Z)) :
  ∀ acc,
    existsb (fun r : cell * Z => steps_onto g goal r.1) rs = false →
    move_robots g (Some goal) rs acc = Ok (Moved (robots_after g goal rs acc)).
Proof.
  induction rs as [|[pos number] rs IH]; intros acc Hfree; [done|].
  cbn [existsb fst] in Hfree. apply orb_false_iff in Hfree as [Hhead Hrest].
  change (robots_after g goal ((pos, number) :: rs) acc)
    with (robots_after g goal rs (dict_set acc (next_position g goal pos) number)).
  cbn [move_robots]. rewrite find_path_run_returns.
  cbn [mbind result_bind]. unfold steps_onto in Hhead. unfold next_position.
  destruct (find_path g pos goal) as [[|a [|b t]]|]; try by apply IH.
  rewrite Hhead. by apply IH.
Qed.

Lemma robots_after_spec (g : list (list Z)) (goal : cell) (rs : list (cell * Z)) :
  ∀ acc,
    NoDup acc.*1 →
    NoDup (robots_after g goal rs acc).*1
    ∧ (length (robots_after g goal rs acc) ≤ length acc + length rs)%nat
    ∧ (∀ r', r' ∈ robots_after g goal rs acc →
         r' ∈ acc ∨ ∃ r, r ∈ rs ∧ r' = (next_position g goal r.1, r.2))
    ∧ (∀ c, c ∈ acc.*1 → c ∈ (robots_after g goal rs acc).*1)
    ∧ (∀ r, r ∈ rs → next_position g goal r.1 ∈ (robots_after g goal rs acc).*1).
Proof.
  induction rs as [|r rs IH]; intros acc Hacc.
  - cbn. repeat split; [done|lia|by left|done|by intros r Hr%elem_of_nil].
  - cbn [robots_after foldl].
    destruct (IH (dict_set acc (next_position g goal r.1) r.2))
      as (Hnd & Hlen & Horigin & Hkeep & Hcover); [by apply dict_set_NoDup|].
    fold (robots_after g goal rs (dict_set acc (next_position g goal r.1) r.2)) in *.
    destruct (dict_set_key acc (next_position g goal r.1) r.2) as [Hk Hks].
    repeat split.
    + done.
    + rewrite dict_set_length in Hlen. cbn [length]. case_bool_decide; lia.
    + intros r' Hr'. destruct (Horigin r' Hr') as [Hin|(r0 & Hr0 & ->)].
      * apply dict_set_elem in Hin as [? | ->]; [by left|].
        right. exists r. split; [apply list_elem_of_here|done].
      * right. exists r0. split; [by apply list_elem_of_further|done].
    + intros c Hc. by apply Hkeep, Hks.
    + intros r0 [-> | Hr0]%elem_of_cons; [by apply Hkeep|by apply Hcover].
Qed.


(** Both outcomes of a tick that fires. *)
Lemma update_game_fires (st : game) (current_time : Z) (goal : cell) :
  game_running st = true → tick_due st current_time = true →
  intruder_pos st = Some goal →
  update_game st current_time
  = Ok (if captures st goal then game_over st
        else set_robots st (robots_after (grid st) goal (robots st) []) current_time).
Proof.
  intros Hrun Hdue Hgoal. destruct (captures st goal) eqn:Hcap.
  - by apply update_game_capture with goal.
  - unfold update_game. rewrite Hrun, Hdue, Hgoal. cbn [negb].
    by rewrite (move_robots_fold _ _ _ [] Hcap).
Qed.

(** ** One step at a time *)

Lemma next_position_cases (g : list (list Z)) (goal pos : cell) :
  next_position g goal pos = pos
  ∨ ((∃ d, d ∈ DIRECTIONS ∧ next_position g goal pos = shift pos d)
     ∧ passable g (next_position g goal pos) = true).
Proof.
  unfold next_position.
  destruct (find_path g pos goal) as [[|a [|b t]]|] eqn:Hp; try by left.
  right. apply find_path_walk in Hp.
  destruct (walk_ends _ _ _ _ Hp) as [[= ->] _].
  by apply (walk_lookup _ _ _ _ Hp 0%nat pos b).
Qed.

End TickFacts.

Module InputFacts.

Import PathFinder Game Session PathFinderFacts GameFacts.

#[local] Existing Instances GameFacts.before_trans GameFacts.before_total.

#[local] Instance before_antisym : AntiSymm (=) before.
Proof. unfold before. intros a b ??. lia. Qed.

(** ** The leaderboard *)



(** ** The key handler *)

Lemma set_intruder_pos_same (st : game) :
  set_intruder_pos st (intruder_pos st) = st.
Proof. by destruct st. Qed.

Lemma set_status_same (st : game) :
  set_status st (game_status st) (game_running st) = st.
Proof. by destruct st. Qed.

(** What a key that asks for no move does to a running game. *)
Lemma keydown_no_move (st : game) (k : key) (p : cell) :
  game_running st = true → intruder_pos st = Some p →
  (target p k).2 = false → keydown st k = Ok st.
Proof.
  intros Hrun Hp Hk. unfold keydown.
  rewrite Hrun, !andb_false_r. cbn zeta iota beta. rewrite Hrun, Hp.
  destruct k; try done; cbn [target];
    (destruct (in_bounds p && (grid_at (grid st) p =? 0)); [|done]);
    by rewrite <- Hp, set_intruder_pos_same.
Qed.

(** ** The mouse *)

Lemma scan_buttons_row (bs : list button) (i x y : Z) (b : button) :
  scan_buttons bs i x y = Some b → PADDING ≤ y < PADDING + BUTTON_HEIGHT.
Proof.
  revert i. induction bs as [|b' bs IH]; intros i; [done|].
  cbn [scan_buttons]. unfold collidepoint.
  destruct (_ && _) eqn:Hhit; [|apply IH].
  intros _. repeat (apply andb_prop in Hhit as [Hhit ?]). lia.
Qed.

Lemma clicked_cell_below_buttons (x y : Z) :
  y < 2 * PADDING + BUTTON_HEIGHT → clicked_cell x y = None.
Proof.
  intros Hy. unfold clicked_cell.
  destruct (_ && _) eqn:Hin; [|done].
  repeat (apply andb_prop in Hin as [Hin ?]). lia.
Qed.

End InputFacts.

(** * Properties of the layouts *)

Module LayoutFacts.

Import PathFinder Game Session PathFinderFacts GameFacts TickFacts.

(** ** Reading and blocking cells *)

Lemma NoDup_board_cells : NoDup board_cells.
Proof. apply (bool_decide_unpack _). by vm_compute. Qed.

Lemma board_in_bounds (c : cell) : c ∈ board_cells → in_bounds c = true.
Proof.
  unfold board_cells, in_bounds.
  intros (r & (k & ->%list_elem_of_singleton & Hk)%list_elem_of_bind & Hr)%list_elem_of_bind.
  apply elem_of_seqZ in Hk, Hr. cbn [fst snd]. lia.
Qed.

Lemma grid_ok_empty : grid_ok empty_grid.
Proof.
  split; [apply length_replicate|].
  apply Forall_replicate. split; [apply length_replicate|].
  apply Forall_replicate. by left.
Qed.


Lemma grid_ok_set_obstacle (g : list (list Z)) (c : cell) :
  grid_ok g → grid_ok (set_obstacle g c).
Proof.
  intros [Hlen Hrows]. unfold set_obstacle. split; [by rewrite length_alter|].
  apply Forall_alter; [done|]. intros row _ [Hrow Hvals].
  split; [by rewrite length_insert|]. apply Forall_insert; [done|by right].
Qed.

Lemma grid_at_set_obstacle (g : list (list Z)) (c c' : cell) :
  grid_ok g → in_bounds c = true → in_bounds c' = true →
  grid_at (set_obstacle g c) c' = if decide (c' = c) then 1 else grid_at g c'.
Proof.
  intros [Hlen Hrows] Hc Hc'. unfold in_bounds, GRID_SIZE in *.
  destruct c as [r k], c' as [r' k']. cbn [fst snd] in *.
  repeat (apply andb_prop in Hc as [Hc ?]). repeat (apply andb_prop in Hc' as [Hc' ?]).
  unfold grid_at, set_obstacle. cbn [fst snd]. rewrite !nth_lookup.
  destruct (decide (r' = r)) as [->|Hr].
  - rewrite list_lookup_alter_eq.
    destruct (lookup_lt_is_Some_2 g (Z.to_nat r)) as [row Hrow];
      [rewrite Hlen; unfold GRID_SIZE; lia|].
    rewrite Hrow. cbn.
    destruct (proj1 (Forall_lookup _ _) Hrows _ _ Hrow) as [Hrl _].
    unfold GRID_SIZE in Hrl.
    destruct (decide (k' = k)) as [->|Hk].
    + rewrite list_lookup_insert_eq by lia. by rewrite decide_True.
    + rewrite list_lookup_insert_ne by lia.
      rewrite decide_False by congruence. done.
  - rewrite list_lookup_alter_ne by lia. rewrite decide_False by congruence. done.
Qed.

(** ** Counting obstacles *)

Lemma filter_agree {A : Type} (P Q : A → Prop)
    `{!∀ x, Decision (P x)} `{!∀ x, Decision (Q x)} (l : list A) :
  (∀ x, x ∈ l → P x ↔ Q x) → filter P l = filter Q l.
Proof.
  induction l as [|x l IH]; intros Hl; [done|].
  rewrite !filter_cons. rewrite IH by (intros; by apply Hl, list_elem_of_further).
  destruct (decide (P x)) as [HP|HP], (decide (Q x)) as [HQ|HQ]; try done;
    exfalso; pose proof (Hl x (list_elem_of_here _ _)); tauto.
Qed.

Lemma filter_one_more {A : Type} (P Q : A → Prop)
    `{!∀ x, Decision (P x)} `{!∀ x, Decision (Q x)} (l : list A) (c : A) :
  NoDup l → c ∈ l → ¬ P c → Q c → (∀ x, x ≠ c → P x ↔ Q x) →
  length (filter Q l) = S (length (filter P l)).
Proof.
  intros Hnd Hc HP HQ Hother. induction l as [|x l IH]; [by apply elem_of_nil in Hc|].
  apply NoDup_cons in Hnd as [Hx Hnd]. rewrite !filter_cons.
  apply elem_of_cons in Hc as [<-|Hc].
  - rewrite decide_True, decide_False by done. cbn [length]. f_equal. f_equal.
    apply filter_agree. intros x Hxl. symmetry. apply Hother. by intros ->.
  - assert (x ≠ c) as Hne by (by intros ->).
    specialize (IH Hnd Hc).
    destruct (decide (P x)) as [HPx|HPx], (decide (Q x)) as [HQx|HQx];
      cbn [length]; try lia; exfalso; pose proof (Hother x Hne); tauto.
Qed.

Lemma obstacles_set_obstacle (g : list (list Z)) (c : cell) :
  grid_ok g → in_bounds c = true → grid_at g c = 0 →
  length (obstacles (set_obstacle g c)) = S (length (obstacles g)).
Proof.
  intros Hg Hc Hfree. unfold obstacles.
  assert (Hagree : filter (fun c' => grid_at (set_obstacle g c) c' = 1) board_cells
                   = filter (fun c' => c' = c ∨ grid_at g c' = 1) board_cells).
  { apply filter_agree. intros c' Hc'%board_in_bounds.
    rewrite grid_at_set_obstacle by done. case_decide; [by split; [left|]|].
    split; [by right|by intros [?|?]]. }
  rewrite Hagree.
  apply (filter_one_more (fun c' => grid_at g c' = 1) _ board_cells c).
  - apply NoDup_board_cells.
  - by apply in_bounds_board.
  - by rewrite Hfree.
  - by left.
  - intros x Hx. split; [by right|by intros [?|?]].
Qed.

(** ** Random placement *)

Lemma drawn_in_bounds (row col : Z) :
  drawn row → drawn col → in_bounds (row, col) = true.
Proof. unfold drawn, in_bounds. cbn [fst snd]. lia. Qed.

Lemma place_obstacle_spec (g g' : list (list Z)) (draws rest : list Z) :
  grid_ok g → Forall drawn draws →
  place_obstacle g draws = Ok (g', rest) →
  ∃ c, in_bounds c = true ∧ grid_at g c = 0 ∧ g' = set_obstacle g c
       ∧ Forall drawn rest.
Proof.
  intros Hg. remember (length draws) as n eqn:Hn.
  revert draws Hn. induction (lt_wf n) as [n _ IH]. intros draws -> Hd Hrun.
  destruct draws as [|row [|col draws']]; [done..|].
  cbn [place_obstacle] in Hrun.
  apply Forall_cons in Hd as [Hrow [Hcol Hd]%Forall_cons].
  destruct (grid_at g (row, col) =? 0) eqn:Hfree.
  - injection Hrun as <- <-. exists (row, col).
    split; [by apply drawn_in_bounds|]. by apply Z.eqb_eq in Hfree.
  - apply (IH (length draws')) with draws'; [cbn; lia|done..].
Qed.

Lemma place_obstacles_spec (n : nat) :
  ∀ (g g' : list (list Z)) (draws rest : list Z),
    grid_ok g → Forall drawn draws →
    place_obstacles n g draws = Ok (g', rest) →
    grid_ok g'
    ∧ length (obstacles g') = (length (obstacles g) + n)%nat
    ∧ Forall drawn rest.
Proof.
  induction n as [|n IH]; intros g g' draws rest Hg Hd Hrun.
  - injection Hrun as <- <-. by rewrite Nat.add_0_r.
  - cbn [place_obstacles] in Hrun.
    destruct (place_obstacle g draws) as [[g1 d1]|] eqn:Hone; [|done].
    cbn [mbind result_bind] in Hrun.
    destruct (place_obstacle_spec _ _ _ _ Hg Hd Hone) as (c & Hc & Hfree & -> & Hd1).
    destruct (IH _ _ _ _ (grid_ok_set_obstacle g c Hg) Hd1 Hrun) as (Hg' & Hcount & Hrest).
    split; [done|]. split; [|done].
    rewrite Hcount, obstacles_set_obstacle by done. lia.
Qed.

Lemma place_robot_spec (g : list (list Z)) (rs rs' : list (cell * Z))
    (counter : Z) (draws rest : list Z) :
  Forall drawn draws →
  place_robot g rs counter draws = Ok (rs', rest) →
  ∃ c, in_bounds c = true ∧ grid_at g c = 0 ∧ (c ∉ rs.*1)
       ∧ rs' = rs ++ [(c, counter)] ∧ Forall drawn rest.
Proof.
  remember (length draws) as n eqn:Hn.
  revert draws Hn. induction (lt_wf n) as [n _ IH]. intros draws -> Hd Hrun.
  destruct draws as [|row [|col draws']]; [done..|].
  cbn [place_robot] in Hrun.
  apply Forall_cons in Hd as [Hrow [Hcol Hd]%Forall_cons].
  destruct ((grid_at g (row, col) =? 0)
            && negb (bool_decide ((row, col) ∈ rs.*1))) eqn:Hfit.
  - injection Hrun as <- <-. exists (row, col).
    apply andb_prop in Hfit as [Hfree%Z.eqb_eq Hnew%negb_true_iff].
    apply bool_decide_eq_false in Hnew.
    split; [by apply drawn_in_bounds|]. by rewrite dict_set_fresh.
  - apply (IH (length draws')) with draws'; [cbn; lia|done..].
Qed.

Lemma place_robots_spec (n : nat) (g : list (list Z)) :
  ∀ (rs rs' : list (cell * Z)) (counter counter' : Z) (draws rest : list Z),
    Forall drawn draws → NoDup rs.*1 →
    place_robots n g rs counter draws = Ok ((rs', counter'), rest) →
    NoDup rs'.*1
    ∧ rs'.*2 = rs.*2 ++ seqZ counter (Z.of_nat n)
    ∧ counter' = counter + Z.of_nat n
    ∧ (∀ r, r ∈ rs' → r ∈ rs ∨ (in_bounds r.1 = true ∧ grid_at g r.1 = 0))
    ∧ Forall drawn rest.
Proof.
  induction n as [|n IH]; intros rs rs' counter counter' draws rest Hd Hnd Hrun.
  - injection Hrun as <- <- <-. rewrite app_nil_r, Z.add_0_r.
    repeat split; [done|by left|done].
  - cbn [place_robots] in Hrun.
    destruct (place_robot g rs counter draws) as [[rs1 d1]|] eqn:Hone; [|done].
    cbn [mbind result_bind] in Hrun.
    destruct (place_robot_spec _ _ _ _ _ _ Hd Hone) as (c & Hc & Hfree & Hnew & -> & Hd1).
    assert (Hnd1 : NoDup (rs ++ [(c, counter)]).*1).
    { rewrite fmap_app. apply NoDup_app. split; [done|].
      split; [|apply NoDup_singleton]. by intros ? ? ->%list_elem_of_singleton. }
    destruct (IH _ _ _ _ _ _ Hd1 Hnd1 Hrun) as (Hnd' & Hnum & -> & Hcells & Hrest).
    split; [done|]. split; [|split; [lia|split; [|done]]].
    + rewrite Hnum, fmap_app, <- app_assoc. f_equal. cbn [fmap list_fmap snd app].
      rewrite Nat2Z.inj_succ, (seqZ_cons counter) by lia. do 2 f_equal; lia.
    + intros r Hr. destruct (Hcells r Hr) as [[?| ->%list_elem_of_singleton]%elem_of_app|?];
        [by left|by right|by right].
Qed.

End LayoutFacts.

(** * Properties of a session *)

Module SessionFacts.

Import PathFinder Game Session PathFinderFacts GameFacts TickFacts InputFacts LayoutFacts.

Ltac fields :=
  cbn [game_status game_running steps high_score robot_speed robot_counter
       last_update grid robots intruder_pos leaderboard high_score_json
       leaderboard_json set_status set_progress set_high_score set_robots
       set_intruder_pos set_leaderboard save_high_score save_leaderboard
       set_grid set_robot_dict clear_grid] in *.

Lemma ramp_start : ramp (Z.to_nat (0 `div` ROBOT_SPEED_INCREASE_STEPS)) = ROBOT_SPEED_INITIAL.
Proof. done. Qed.

(** ** The layout operations *)

Lemma new_random_layout_spec (st st' : game) (draws rest : list Z) :
  Forall drawn draws →
  new_random_layout st draws = Ok (st', rest) →
  (grid_ok (grid st')
   ∧ length (obstacles (grid st')) = Z.to_nat NUM_OBSTACLES
   ∧ NoDup (robots st').*1
   ∧ (robots st').*2 = seqZ 1 NUM_ROBOTS
   ∧ (∀ r, r ∈ robots st' → in_bounds r.1 = true ∧ grid_at (grid st') r.1 = 0)
   ∧ robot_counter st' = 1 + NUM_ROBOTS)
  ∧ (game_status st' = Setup ∧ game_running st' = false
     ∧ intruder_pos st' = None ∧ steps st' = 0
     ∧ robot_speed st' = ROBOT_SPEED_INITIAL)
  ∧ (high_score st' = high_score st ∧ leaderboard st' = leaderboard st
     ∧ high_score_json st' = high_score_json st
     ∧ leaderboard_json st' = leaderboard_json st
     ∧ last_update st' = last_update st)
  ∧ Forall drawn rest.
Proof.
  intros Hd. unfold new_random_layout, add_random_obstacles, add_random_robots.
  destruct (place_obstacles (Z.to_nat NUM_OBSTACLES) empty_grid draws)
    as [[g d1]|] eqn:Hobs; [|done].
  cbn [mbind result_bind]. fields.
  destruct (place_robots (Z.to_nat NUM_ROBOTS) g [] 1 d1)
    as [[[rs counter] d2]|] eqn:Hrob; [|done].
  cbn [mbind result_bind]. intros [= <- <-]. fields.
  destruct (place_obstacles_spec _ _ _ _ _ grid_ok_empty Hd Hobs) as (Hg & Hcount & Hd1).
  assert (Hnil : NoDup (@nil (cell * Z)).*1) by apply NoDup_nil_2.
  destruct (place_robots_spec _ _ _ _ _ _ _ _ Hd1 Hnil Hrob)
    as (Hnd & Hnum & -> & Hcells & Hd2).
  assert (length (obstacles empty_grid) = 0%nat) as Hzero by (by vm_compute).
  rewrite Hzero in Hcount.
  split; [|done].
  split; [done|]. split; [done|]. split; [done|]. split; [done|]. split; [|done].
  intros r Hr. destruct (Hcells r Hr) as [Hin|?]; [by apply elem_of_nil in Hin|done].
Qed.

(** ** Every operation keeps the state well formed *)














(** ** The loop *)








(** ** The high score *)

Lemma keydown_high_score (st st' : game) (k : key) :
  keydown st k = Ok st' → high_score st' = high_score st.
Proof.
  unfold keydown. destruct (_ && negb (game_running st)); [by intros [= <-]|].
  cbn zeta.
  set (st1 := if bool_decide (k = K_SPACE) && bool_decide (is_Some (intruder_pos st))
                   && negb (game_running st)
              then set_status st Running true else st).
  assert (Hhs : high_score st1 = high_score st) by (subst st1; by destruct (_ && _)).
  clearbody st1. destruct (game_running st1); [|by intros [= <-]].
  destruct (intruder_pos st1) as [p|]; [|done]. destruct (target p k) as [new_pos moved].
  destruct (_ && _); [|by intros [= <-]]. intros [= <-].
  destruct moved; [|done]. unfold count_step. by destruct (_ && _).
Qed.

Lemma new_random_layout_high_score (st st' : game) (draws rest : list Z) :
  new_random_layout st draws = Ok (st', rest) → high_score st' = high_score st.
Proof.
  unfold new_random_layout, add_random_obstacles, add_random_robots.
  destruct (place_obstacles _ _ _) as [[g d1]|]; [|done]. cbn [mbind result_bind].
  fields. destruct (place_robots _ _ _ _ _) as [[[rs c] d2]|]; [|done].
  cbn [mbind result_bind]. by intros [= <- <-].
Qed.

Lemma mousebuttondown_high_score (st st' : game) (x y : Z) (draws rest : list Z) :
  mousebuttondown st x y draws = Ok (st', rest) → high_score st' = high_score st.
Proof.
  assert (Hclick : ∀ s, high_score (grid_click s x y) = high_score s).
  { intros s. unfold grid_click. destruct (negb _); [|done].
    destruct (clicked_cell x y) as [c|]; [|done]. by destruct (placeable s c). }
  unfold mousebuttondown. destruct (scan_buttons buttons 0 x y) as [b|].
  - destruct (press st b draws) as [[st1 d1]|] eqn:Hpress; [|done].
    cbn [mbind result_bind]. intros [= <- <-]. rewrite Hclick.
    destruct b; cbn [press] in Hpress.
    + by injection Hpress as <- <-.
    + injection Hpress as <- <-. unfold add_intruder_mode. by destruct (negb _).
    + injection Hpress as <- <-. unfold start_game. by destruct (intruder_pos st).
    + by apply new_random_layout_high_score in Hpress.
  - cbn [mbind result_bind]. intros [= <- <-]. apply Hclick.
Qed.

Lemma update_game_high_score (st st' : game) (current_time : Z) :
  update_game st current_time = Ok st' → high_score st ≤ high_score st'.
Proof.
  unfold update_game. destruct (negb _); [by intros [= <-]|].
  destruct (tick_due st current_time); [|by intros [= <-]].
  destruct (move_robots _ _ _ _) as [[|rs]|]; cbn [mbind result_bind]; [| |done].
  - intros [= <-]. destruct (game_over_spec st) as (_ & _ & _ & _ & _ & -> & _). lia.
  - by intros [= <-].
Qed.

Lemma run_high_score (fs : list (list event * Z)) :
  ∀ w w', run w fs = Ok w' → high_score w.1 ≤ high_score w'.1.
Proof.
  assert (Hevs : ∀ evs w w', handle_all w evs = Ok w' → high_score w'.1 = high_score w.1).
  { induction evs as [|ev evs IH]; intros w w'; cbn [handle_all]; [by intros [= <-]|].
    destruct (handle w ev) as [w1|] eqn:Hev; [|done]. cbn [mbind result_bind].
    intros ->%IH. destruct ev as [x y|k]; cbn [handle] in Hev.
    - destruct w1. by apply mousebuttondown_high_score in Hev.
    - destruct (keydown w.1 k) as [st1|] eqn:Hk; [|done].
      injection Hev as <-. by apply keydown_high_score in Hk. }
  induction fs as [|f fs IH]; intros w w'; cbn [run]; [by intros [= <-]|].
  unfold frame. destruct (handle_all w f.1) as [w1|] eqn:H1; [|done].
  cbn [mbind result_bind].
  destruct (update_game w1.1 f.2) as [st2|] eqn:H2; [|done].
  cbn [mbind result_bind]. intros Hrest%IH. cbn [fst] in Hrest.
  apply Hevs in H1. apply update_game_high_score in H2. lia.
Qed.

End SessionFacts.

(** * Further properties of the code *)

Import Session Sample PathFacts TickFacts InputFacts LayoutFacts SessionFacts.

(** ** The path finder *)

(** X1.  [find_path] returns for every grid, start and goal: no dictionary
    lookup fails and both [while] loops end within their bound. *)
Theorem find_path_always_returns (grid : list (list Z)) (start goal : cell) :
  ∃ r, find_path_run grid start goal = Ok r.
Proof. eexists. apply find_path_run_returns. Qed.

(** X2.  A path that [find_path] returns begins at [start], ends at
    [goal], and each of its moves goes to one of the four neighbours, a
    cell in bounds that is not an obstacle. *)
Theorem find_path_returns_path
    (grid : list (list Z)) (start goal : cell) (p : list cell) :
  find_path_run grid start goal = Ok (Some p) →
  head p = Some start ∧ last p = Some goal
  ∧ ∀ (i : nat) (a b : cell), p !! i = Some a → p !! S i = Some b →
      (∃ d, d ∈ DIRECTIONS ∧ b = shift a d)
      ∧ in_bounds b = true ∧ grid_at grid b ≠ 1.
Proof.
  rewrite find_path_run_returns. intros [= Hp]. apply find_path_walk in Hp.
  destruct (walk_ends _ _ _ _ Hp) as [Hhead Hlast]. split; [done|]. split; [done|].
  intros i a b Ha Hb. destruct (walk_lookup _ _ _ _ Hp i a b Ha Hb) as [Hstep Hpass].
  split; [done|]. split; [by apply passable_in_bounds with grid|].
  unfold passable in Hpass. intros Hone. rewrite Hone in Hpass.
  by rewrite orb_true_r in Hpass.
Qed.

Lemma find_path_returns_path_witness :
  find_path_run detour_grid (2, 4) (1, 0) = Ok (Some detour_path)
  ∧ head detour_path = Some (2, 4) ∧ last detour_path = Some (1, 0)
  ∧ ∀ (i : nat) (a b : cell),
      detour_path !! i = Some a → detour_path !! S i = Some b →
      (∃ d, d ∈ DIRECTIONS ∧ b = shift a d)
      ∧ in_bounds b = true ∧ grid_at detour_grid b ≠ 1.
Proof.
  assert (H : find_path_run detour_grid (2, 4) (1, 0) = Ok (Some detour_path))
    by (by vm_compute).
  split; [exact H|].
  exact (find_path_returns_path detour_grid (2, 4) (1, 0) detour_path H).
Defined.

(** X3.  Whenever some sequence of moves through free in-bounds cells
    leads from [start] to [goal], [find_path] returns a path and not
    [None]. *)
Theorem find_path_finds_goal
    (grid : list (list Z)) (start goal : cell) (rest : list cell) :
  steps_ok grid start rest = true →
  last (start :: rest) = Some goal →
  ∃ q, find_path_run grid start goal = Ok (Some q).
Proof.
  intros Hok Hlast.
  assert (Hw : walk grid start goal ([start] ++ rest)).
  { apply (steps_ok_walk grid start rest start goal [start]); [apply walk_here|done..]. }
  destruct (find_path_finds grid start goal _ Hw) as (q & Hq & _).
  exists q. by rewrite find_path_run_returns, Hq.
Qed.

Lemma find_path_finds_goal_witness :
  steps_ok detour_grid (2, 4) (tail direct_path) = true
  ∧ last ((2, 4) :: tail direct_path) = Some (1, 0)
  ∧ ∃ q, find_path_run detour_grid (2, 4) (1, 0) = Ok (Some q).
Proof.
  assert (H : steps_ok detour_grid (2, 4) (tail direct_path) = true) by (by vm_compute).
  split; [exact H|]. split; [reflexivity|].
  exact (find_path_finds_goal detour_grid (2, 4) (1, 0) (tail direct_path) H eq_refl).
Defined.

(** X4.  A path that [find_path] returns visits no cell twice. *)
Theorem find_path_no_cell_twice
    (grid : list (list Z)) (start goal : cell) (p : list cell) :
  find_path_run grid start goal = Ok (Some p) → NoDup p.
Proof.
  intros Hrun.
  apply (search_loop_NoDup grid start goal LOOP_BOUND (init start goal)); [|done].
  apply inv_init.
Qed.

Lemma find_path_no_cell_twice_witness :
  find_path_run detour_grid (2, 4) (1, 0) = Ok (Some detour_path)
  ∧ NoDup detour_path.
Proof.
  assert (H : find_path_run detour_grid (2, 4) (1, 0) = Ok (Some detour_path))
    by (by vm_compute).
  split; [exact H|].
  exact (find_path_no_cell_twice detour_grid (2, 4) (1, 0) detour_path H).
Defined.

(** X5.  A returned path has at least as many moves as the Manhattan
    distance from [start] to [goal]. *)
Theorem find_path_at_least_manhattan
    (grid : list (list Z)) (start goal : cell) (p : list cell) :
  find_path_run grid start goal = Ok (Some p) →
  manhattan_distance start goal + 1 ≤ Z.of_nat (length p).
Proof.
  rewrite find_path_run_returns. intros [= Hp]. apply find_path_walk in Hp.
  induction Hp as [|b c p d Hw IH Hd -> Hpass].
  - unfold manhattan_distance. cbn [length]. lia.
  - rewrite length_app. cbn [length]. revert IH. unfold manhattan_distance, shift.
    unfold DIRECTIONS in Hd. repeat (apply elem_of_cons in Hd as [->|Hd]);
      [cbn [fst snd]; lia..|by apply elem_of_nil in Hd].
Qed.

Lemma find_path_at_least_manhattan_witness :
  find_path_run detour_grid (2, 4) (1, 0) = Ok (Some detour_path)
  ∧ manhattan_distance (2, 4) (1, 0) + 1 ≤ Z.of_nat (length detour_path).
Proof.
  assert (H : find_path_run detour_grid (2, 4) (1, 0) = Ok (Some detour_path))
    by (by vm_compute).
  split; [exact H|].
  exact (find_path_at_least_manhattan detour_grid (2, 4) (1, 0) detour_path H).
Defined.

(** ** The tick *)

(** X6.  The cell a robot is sent to in a tick is its own cell or one of
    the four neighbours of it, and then a cell in bounds that is not an
    obstacle: a robot never jumps, moves diagonally, leaves the board or
    enters an obstacle. *)
Theorem robot_moves_one_step (g : list (list Z)) (goal pos : cell) :
  next_position g goal pos = pos
  ∨ ((∃ d, d ∈ DIRECTIONS ∧ next_position g goal pos = shift pos d)
     ∧ in_bounds (next_position g goal pos) = true
     ∧ grid_at g (next_position g goal pos) ≠ 1).
Proof.
  destruct (next_position_cases g goal pos) as [?|[Hstep Hpass]]; [by left|right].
  split; [done|]. split; [by apply passable_in_bounds with g|].
  unfold passable in Hpass. intros Hone. rewrite Hone in Hpass.
  by rewrite orb_true_r in Hpass.
Qed.



(** X8.  [update_game] never changes the grid, the intruder's position,
    the step count, the robot speed or the robot counter, and never lowers
    the high score. *)
Theorem update_game_leaves_board (st st' : game) (current_time : Z) :
  update_game st current_time = Ok st' →
  grid st' = grid st ∧ intruder_pos st' = intruder_pos st
  ∧ steps st' = steps st ∧ robot_speed st' = robot_speed st
  ∧ robot_counter st' = robot_counter st
  ∧ high_score st ≤ high_score st'.
Proof.
  intros Hrun. pose proof (update_game_high_score _ _ _ Hrun) as Hhs.
  revert Hrun. unfold update_game. destruct (negb _); [by intros [= <-]|].
  destruct (tick_due st current_time); [|by intros [= <-]].
  destruct (move_robots _ _ _ _) as [[|rs]|]; cbn [mbind result_bind]; [| |done].
  - intros [= <-]. repeat split; try done;
      unfold game_over, update_leaderboard, update_high_score;
      by destruct (high_score (set_status st GameOver false)
                   <? steps (set_status st GameOver false)).
  - intros [= <-]. by subst.
Qed.

Lemma update_game_leaves_board_witness :
  update_game chase_game 1000
  = Ok (set_robots chase_game [((0, 1), 1); ((3, 4), 2)] 1000)
  ∧ grid (set_robots chase_game [((0, 1), 1); ((3, 4), 2)] 1000) = grid chase_game
  ∧ intruder_pos (set_robots chase_game [((0, 1), 1); ((3, 4), 2)] 1000)
    = intruder_pos chase_game
  ∧ steps (set_robots chase_game [((0, 1), 1); ((3, 4), 2)] 1000) = steps chase_game
  ∧ robot_speed (set_robots chase_game [((0, 1), 1); ((3, 4), 2)] 1000)
    = robot_speed chase_game
  ∧ robot_counter (set_robots chase_game [((0, 1), 1); ((3, 4), 2)] 1000)
    = robot_counter chase_game
  ∧ high_score chase_game
    ≤ high_score (set_robots chase_game [((0, 1), 1); ((3, 4), 2)] 1000).
Proof.
  assert (H : update_game chase_game 1000
              = Ok (set_robots chase_game [((0, 1), 1); ((3, 4), 2)] 1000))
    by (by vm_compute).
  split; [exact H|].
  exact (update_game_leaves_board chase_game _ 1000 H).
Defined.

(** X9.  After a tick that fires without a capture the robots are again a
    dictionary with one robot per cell: no more robots than before, every
    robot left is a pre-tick robot on its next position with its number,
    and every next position holds a robot. *)
Theorem tick_keeps_one_robot_per_cell (st : game) (current_time : Z) (goal : cell) :
  game_running st = true →
  tick_due st current_time = true →
  intruder_pos st = Some goal →
  captures st goal = false →
  ∃ st', update_game st current_time = Ok st'
    ∧ NoDup (robots st').*1
    ∧ (length (robots st') ≤ length (robots st))%nat
    ∧ (∀ r', r' ∈ robots st' →
         ∃ r, r ∈ robots st ∧ r' = (next_position (grid st) goal r.1, r.2))
    ∧ (∀ r, r ∈ robots st → next_position (grid st) goal r.1 ∈ (robots st').*1).
Proof.
  intros Hrun Hdue Hgoal Hcap.
  rewrite (update_game_fires st current_time goal), Hcap by done.
  eexists. split; [done|]. cbn [robots set_robots].
  assert (Hnil : NoDup (@nil (cell * Z)).*1) by apply NoDup_nil_2.
  destruct (robots_after_spec (grid st) goal (robots st) [] Hnil)
    as (Hnd & Hlen & Horigin & _ & Hcover).
  split; [done|]. split; [done|]. split; [|done].
  intros r' Hr'. destruct (Horigin r' Hr') as [Hin|?]; [|done].
  by apply elem_of_nil in Hin.
Qed.

Lemma tick_keeps_one_robot_per_cell_witness :
  game_running merge_game = true
  ∧ tick_due merge_game 1000 = true
  ∧ intruder_pos merge_game = Some (0, 3)
  ∧ captures merge_game (0, 3) = false
  ∧ ∃ st', update_game merge_game 1000 = Ok st'
    ∧ NoDup (robots st').*1
    ∧ (length (robots st') ≤ length (robots merge_game))%nat
    ∧ (∀ r', r' ∈ robots st' →
         ∃ r, r ∈ robots merge_game
              ∧ r' = (next_position (grid merge_game) (0, 3) r.1, r.2))
    ∧ (∀ r, r ∈ robots merge_game →
         next_position (grid merge_game) (0, 3) r.1 ∈ (robots st').*1).
Proof.
  assert (Hdue : tick_due merge_game 1000 = true) by (by vm_compute).
  assert (Hcap : captures merge_game (0, 3) = false) by (by vm_compute).
  split; [reflexivity|]. split; [exact Hdue|]. split; [reflexivity|].
  split; [exact Hcap|].
  exact (tick_keeps_one_robot_per_cell merge_game 1000 (0, 3) eq_refl Hdue eq_refl Hcap).
Defined.



(** ** Scores *)

(** X11.  [update_leaderboard] keeps the largest scores: what it stores,
    together with what it drops, is the stored list and the new step
    count; nothing dropped is larger than anything kept; and nothing is
    dropped while fewer than five scores were stored. *)
Theorem leaderboard_keeps_top_scores (st : game) :
  ∃ dropped,
    (update_leaderboard st).2 ++ dropped ≡ₚ load_leaderboard st ++ [steps st]
    ∧ (∀ x y, x ∈ (update_leaderboard st).2 → y ∈ dropped → y ≤ x)
    ∧ ((length (load_leaderboard st) < 5)%nat → dropped = []).
Proof.
  exists (drop 5 (sort_reverse (load_leaderboard st ++ [steps st]))).
  unfold update_leaderboard. cbn [snd]. split; [|split].
  - rewrite take_drop. apply merge_sort_Permutation.
  - intros x y Hx Hy.
    apply (StronglySorted_app_1_elem_of before
             (take 5 (sort_reverse (load_leaderboard st ++ [steps st])))
             (drop 5 (sort_reverse (load_leaderboard st ++ [steps st]))) x y);
      [|done..].
    rewrite take_drop. apply sort_reverse_sorted.
  - intros Hlen. apply drop_ge. unfold sort_reverse.
    rewrite merge_sort_Permutation, length_app. cbn [length]. lia.
Qed.


(** X13.  Over any run of frames that the loop of [run] gets through, the
    high score does not decrease. *)
Theorem high_score_never_decreases
    (w w' : game * list Z) (fs : list (list event * Z)) :
  run w fs = Ok w' → high_score w.1 ≤ high_score w'.1.
Proof. apply run_high_score. Qed.

Lemma high_score_never_decreases_witness :
  ∃ w w', fresh_session = Ok w ∧ run w short_play = Ok w'
          ∧ high_score w.1 ≤ high_score w'.1.
Proof.
  destruct fresh_session as [w|] eqn:Hw; [|by vm_compute in Hw].
  destruct (run w short_play) as [w'|] eqn:Hrun.
  - exists w, w'. split; [reflexivity|]. split; [exact Hrun|].
    exact (high_score_never_decreases w w' short_play Hrun).
  - exfalso. revert Hrun. vm_compute in Hw. injection Hw as <-. by vm_compute.
Defined.

(** ** Keys and clicks *)

(** X14.  An accepted move puts the intruder on the neighbouring cell in
    the direction of the key, adds exactly one to the step count, and
    leaves the grid, the robots, the running flag and the high score as
    they were. *)
Theorem accepted_move_effect (st : game) (k : key) :
  accepted st k = true →
  ∃ p st', intruder_pos st = Some p ∧ keydown st k = Ok st'
    ∧ intruder_pos st' = Some (target p k).1
    ∧ (∃ d, d ∈ DIRECTIONS ∧ (target p k).1 = shift p d)
    ∧ steps st' = steps st + 1
    ∧ grid st' = grid st ∧ robots st' = robots st
    ∧ game_running st' = game_running st ∧ high_score st' = high_score st.
Proof.
  intros Hacc. destruct (keydown_accepted st k Hacc) as (p & Hp & Hkey).
  exists p. eexists. split; [done|]. split; [done|].
  assert (Hdir : ∃ d, d ∈ DIRECTIONS ∧ (target p k).1 = shift p d).
  { unfold accepted in Hacc. rewrite Hp in Hacc.
    apply andb_prop in Hacc as [_ Hacc]. unfold shift, DIRECTIONS.
    destruct p as [r c]. destruct k; cbn [target fst snd] in *; try done;
      [exists (-1, 0)|exists (1, 0)|exists (0, -1)|exists (0, 1)];
      (split; [set_solver|cbn [fst snd]; f_equal; lia]). }
  unfold count_step. by destruct (_ && _).
Qed.

Lemma accepted_move_effect_witness :
  accepted open_game K_RIGHT = true
  ∧ ∃ p st', intruder_pos open_game = Some p ∧ keydown open_game K_RIGHT = Ok st'
    ∧ intruder_pos st' = Some (target p K_RIGHT).1
    ∧ (∃ d, d ∈ DIRECTIONS ∧ (target p K_RIGHT).1 = shift p d)
    ∧ steps st' = steps open_game + 1
    ∧ grid st' = grid open_game ∧ robots st' = robots open_game
    ∧ game_running st' = game_running open_game
    ∧ high_score st' = high_score open_game.
Proof.
  assert (H : accepted open_game K_RIGHT = true) by (by vm_compute).
  split; [exact H|].
  exact (accepted_move_effect open_game K_RIGHT H).
Defined.

(** X15.  While the game runs, a key that is not an arrow key (SPACE
    included) changes nothing. *)
Theorem other_keys_change_nothing (st : game) (k : key) (p : cell) :
  game_running st = true →
  intruder_pos st = Some p →
  (target p k).2 = false →
  keydown st k = Ok st.
Proof. apply keydown_no_move. Qed.

Lemma other_keys_change_nothing_witness :
  game_running open_game = true
  ∧ intruder_pos open_game = Some (0, 0)
  ∧ (target (0, 0) K_SPACE).2 = false
  ∧ keydown open_game K_SPACE = Ok open_game.
Proof.
  split; [reflexivity|]. split; [reflexivity|]. split; [reflexivity|].
  exact (other_keys_change_nothing open_game K_SPACE (0, 0) eq_refl eq_refl eq_refl).
Defined.

(** X16.  SPACE starts a game that is not running, is not over and has
    an intruder placed, and it starts it as it is: unlike the Start Game
    button it resets neither the step count nor the robot speed. *)
Theorem space_starts_without_reset (st : game) (p : cell) :
  game_running st = false →
  game_status st ≠ GameOver →
  intruder_pos st = Some p →
  keydown st K_SPACE = Ok (set_status st Running true)
  ∧ steps (set_status st Running true) = steps st
  ∧ robot_speed (set_status st Running true) = robot_speed st.
Proof.
  intros Hrun Hstatus Hp. split; [|done]. unfold keydown.
  rewrite bool_decide_eq_false_2 by done. cbn [andb].
  rewrite Hrun, Hp, bool_decide_eq_true_2 by done.
  rewrite bool_decide_eq_true_2 by (by eexists). cbn [andb negb].
  cbn [game_running set_status intruder_pos grid]. rewrite Hp. cbn [target].
  destruct (in_bounds p && (grid_at (grid st) p =? 0)); [|done].
  f_equal. rewrite <- (set_intruder_pos_same (set_status st Running true)) at 2.
  cbn [intruder_pos set_status]. by rewrite Hp.
Qed.

Lemma space_starts_without_reset_witness :
  game_running stale_setup = false
  ∧ game_status stale_setup ≠ GameOver
  ∧ intruder_pos stale_setup = Some (0, 0)
  ∧ keydown stale_setup K_SPACE = Ok (set_status stale_setup Running true)
  ∧ steps (set_status stale_setup Running true) = steps stale_setup
  ∧ robot_speed (set_status stale_setup Running true) = robot_speed stale_setup.
Proof.
  assert (H : game_status stale_setup ≠ GameOver) by discriminate.
  split; [reflexivity|]. split; [exact H|]. split; [reflexivity|].
  exact (space_starts_without_reset stale_setup (0, 0) eq_refl H eq_refl).
Defined.

(** X17.  A click anywhere inside the square that [draw] paints for a
    cell of the board selects that cell. *)
Theorem click_inside_cell (row col dx dy : Z) :
  in_bounds (row, col) = true →
  0 ≤ dx < CELL_SIZE → 0 ≤ dy < CELL_SIZE →
  clicked_cell (col * CELL_SIZE + PADDING + dx)
               (row * CELL_SIZE + 2 * PADDING + BUTTON_HEIGHT + dy)
  = Some (row, col).
Proof.
  unfold in_bounds, clicked_cell, CELL_SIZE, PADDING, BUTTON_HEIGHT, GRID_SIZE.
  cbn [fst snd]. intros Hin Hdx Hdy. repeat (apply andb_prop in Hin as [Hin ?]).
  cbn zeta.
  replace (col * 40 + 20 + dx - 20) with (dx + col * 40) by lia.
  replace (row * 40 + (2 * 20) + 40 + dy - (2 * 20 + 40)) with (dy + row * 40) by lia.
  rewrite !Z.div_add, !Z.div_small by lia.
  destruct (_ && _) eqn:Hbox; [done|].
  exfalso. repeat (apply andb_false_iff in Hbox as [Hbox|Hbox]); lia.
Qed.

Lemma click_inside_cell_witness :
  in_bounds (10, 0) = true ∧ 0 ≤ 5 < CELL_SIZE ∧ 0 ≤ 5 < CELL_SIZE
  ∧ clicked_cell (0 * CELL_SIZE + PADDING + 5)
                 (10 * CELL_SIZE + 2 * PADDING + BUTTON_HEIGHT + 5)
    = Some (10, 0).
Proof.
  assert (Hd : 0 ≤ 5 < CELL_SIZE) by (unfold CELL_SIZE; lia).
  split; [reflexivity|]. split; [exact Hd|]. split; [exact Hd|].
  exact (click_inside_cell 10 0 5 5 eq_refl Hd Hd).
Defined.

(** X18.  A click that hits a button does what the button does and
    nothing else: it never places the intruder. *)
Theorem button_click_places_nothing
    (st : game) (x y : Z) (draws : list Z) (b : button) :
  scan_buttons buttons 0 x y = Some b →
  mousebuttondown st x y draws = press st b draws.
Proof.
  intros Hb. unfold mousebuttondown. rewrite Hb.
  apply scan_buttons_row in Hb.
  assert (Hnone : clicked_cell x y = None).
  { apply clicked_cell_below_buttons. unfold PADDING, BUTTON_HEIGHT in *. lia. }
  destruct (press st b draws) as [[st' rest]|]; [|done].
  cbn [mbind result_bind]. unfold grid_click. rewrite Hnone.
  by destruct (negb _).
Qed.

Lemma button_click_places_nothing_witness :
  scan_buttons buttons 0 150 30 = Some ClearGrid
  ∧ mousebuttondown finished_game 150 30 [] = press finished_game ClearGrid [].
Proof.
  split; [reflexivity|].
  exact (button_click_places_nothing finished_game 150 30 [] ClearGrid eq_refl).
Defined.

(** X19.  The countdown "Speed increase in" that [draw] shows is exact:
    it lies between 1 and 100, the robot speed stays the same for every
    smaller number of further accepted moves, and with the move that
    completes the countdown the speed goes up by the increment. *)
Theorem speed_countdown_is_exact (st : game) :
  0 ≤ steps st →
  1 ≤ steps_until_speed st ≤ ROBOT_SPEED_INCREASE_STEPS
  ∧ (∀ j : nat, Z.of_nat j < steps_until_speed st →
       robot_speed (count_steps j st) = robot_speed st)
  ∧ robot_speed (count_steps (Z.to_nat (steps_until_speed st)) st)
    = (robot_speed st + ROBOT_SPEED_INCREASE)%float.
Proof.
  intros Hpos. unfold steps_until_speed, ROBOT_SPEED_INCREASE_STEPS.
  assert (Hmod : 0 ≤ steps st `mod` 100 < 100) by (apply Z.mod_pos_bound; lia).
  assert (Hiter : ∀ j : nat, Z.of_nat j < 100 - steps st `mod` 100 →
            steps (count_steps j st) = steps st + Z.of_nat j
            ∧ robot_speed (count_steps j st) = robot_speed st).
  { induction j as [|j IH]; intros Hj; [cbn; split; [lia|done]|].
    destruct IH as [Hs Hv]; [lia|]. unfold count_steps in *.
    rewrite Nat.iter_succ. set (s := Nat.iter j count_step st) in *.
    unfold count_step. rewrite Hs. unfold ROBOT_SPEED_INCREASE_STEPS.
    replace ((steps st + Z.of_nat j + 1) `mod` 100 =? 0) with false.
    - rewrite andb_false_r. cbn [set_progress steps robot_speed]. split; [lia|done].
    - symmetry. apply Z.eqb_neq. Z.to_euclidean_division_equations. lia. }
  split; [lia|]. split; [intros j Hj; by apply Hiter|].
  destruct (Z.to_nat (100 - steps st `mod` 100)) as [|j] eqn:Hn; [lia|].
  destruct (Hiter j) as [Hs Hv]; [lia|]. unfold count_steps in *.
  rewrite Nat.iter_succ. set (s := Nat.iter j count_step st) in *.
  unfold count_step. rewrite Hs, Hv. unfold ROBOT_SPEED_INCREASE_STEPS.
  replace ((0 <? steps st + Z.of_nat j + 1) && ((steps st + Z.of_nat j + 1) `mod` 100 =? 0))
    with true; [done|].
  symmetry. apply andb_true_intro. split; [lia|].
  apply Z.eqb_eq. Z.to_euclidean_division_equations. lia.
Qed.

Lemma speed_countdown_is_exact_witness :
  0 ≤ steps stale_setup
  ∧ 1 ≤ steps_until_speed stale_setup ≤ ROBOT_SPEED_INCREASE_STEPS
  ∧ (∀ j : nat, Z.of_nat j < steps_until_speed stale_setup →
       robot_speed (count_steps j stale_setup) = robot_speed stale_setup)
  ∧ robot_speed (count_steps (Z.to_nat (steps_until_speed stale_setup)) stale_setup)
    = (robot_speed stale_setup + ROBOT_SPEED_INCREASE)%float.
Proof.
  assert (H : 0 ≤ steps stale_setup) by (by vm_compute).
  split; [exact H|].
  exact (speed_countdown_is_exact stale_setup H).
Defined.

(** ** Layouts and sessions *)

(** X20.  When [new_random_layout] returns, the grid is a 15 x 15 grid of
    0s and 1s with exactly 30 obstacles; there are 4 robots, numbered 1 to
    4 in order, on pairwise distinct free cells of the board, and the
    robot counter is 5; no intruder is placed, the game is in setup with 0
    steps at the initial speed; the high score, the leaderboard and the
    score files are untouched. *)
Theorem random_layout_result (st st' : game) (draws rest : list Z) :
  Forall drawn draws →
  new_random_layout st draws = Ok (st', rest) →
  (grid_ok (grid st')
   ∧ length (obstacles (grid st')) = 30%nat
   ∧ NoDup (robots st').*1
   ∧ (robots st').*2 = [1; 2; 3; 4]
   ∧ (∀ r, r ∈ robots st' → in_bounds r.1 = true ∧ grid_at (grid st') r.1 = 0)
   ∧ robot_counter st' = 5)
  ∧ (game_status st' = Setup ∧ game_running st' = false
     ∧ intruder_pos st' = None ∧ steps st' = 0
     ∧ robot_speed st' = ROBOT_SPEED_INITIAL)
  ∧ (high_score st' = high_score st ∧ leaderboard st' = leaderboard st
     ∧ high_score_json st' = high_score_json st
     ∧ leaderboard_json st' = leaderboard_json st).
Proof.
  intros Hd Hrun.
  destruct (new_random_layout_spec st st' draws rest Hd Hrun)
    as (Hlayout & Hstate & (? & ? & ? & ? & _) & _).
  done.
Qed.

Lemma random_layout_result_witness :
  Forall drawn row_major_draws
  ∧ ∃ st' rest, new_random_layout finished_game row_major_draws = Ok (st', rest)
    ∧ (grid_ok (grid st')
       ∧ length (obstacles (grid st')) = 30%nat
       ∧ NoDup (robots st').*1
       ∧ (robots st').*2 = [1; 2; 3; 4]
       ∧ (∀ r, r ∈ robots st' → in_bounds r.1 = true ∧ grid_at (grid st') r.1 = 0)
       ∧ robot_counter st' = 5)
    ∧ (game_status st' = Setup ∧ game_running st' = false
       ∧ intruder_pos st' = None ∧ steps st' = 0
       ∧ robot_speed st' = ROBOT_SPEED_INITIAL)
    ∧ (high_score st' = high_score finished_game
       ∧ leaderboard st' = leaderboard finished_game
       ∧ high_score_json st' = high_score_json finished_game
       ∧ leaderboard_json st' = leaderboard_json finished_game).
Proof.
  assert (Hd : Forall drawn row_major_draws).
  { apply (bool_decide_unpack _). by vm_compute. }
  split; [exact Hd|].
  destruct (new_random_layout finished_game row_major_draws) as [[st' rest]|] eqn:Hrun.
  - exists st', rest. split; [reflexivity|].
    exact (random_layout_result finished_game st' row_major_draws rest Hd Hrun).
  - exfalso. revert Hrun. by vm_compute.
Defined.


